(** * The faucet relay: lock store, captcha gate and claim handler

    A shallow embedding of the Express server of the faucet backend
    (the [/claim] route, the hCaptcha verifier and the file-system lock
    store) with the properties of its specification.

    Conventions of the embedding.
    - JavaScript numbers that hold millisecond or second counts are
      integers of [Z]; the values the server computes with stay far
      below 2^53, where doubles are exact.
    - An [async] function is a computation of the monad [M]: it reads
      and updates a [World] (the lock directory, the number of clock
      readings taken so far, the trace of external calls) and either
      returns a value or throws a [JsError].
    - Everything outside the process (the clock, the captcha service,
      the JSON codec of the runtime, the address check of ethers, the
      deployed contracts, the permissions of the lock directory) is a
      field of the environment [Env]; theorems quantify over it.
    - [express.json()] has parsed the body of a request into an object
      whose fields [network], [recipient] and [captchaToken] are strings
      or absent.
    - [log] only writes to the console and is left out. The provider,
      the signer and the contract object that the route builds have no
      effect of their own before the first call; they are the [Faucet]
      the environment gives for the looked-up URL and address.
    - The route answers last on every path, so its answer is the value
      the computation returns. *)

From Stdlib Require Import ZArith String Ascii List Lia Bool DecimalString.
From stdpp Require Import base option list gmap strings.

Set Warnings "-register-all".

Local Open Scope string_scope.
Local Open Scope list_scope.
Local Open Scope Z_scope.

(** ** SHA-256 (FIPS 180-4), as used by [crypto.createHash('sha256')] *)

Module SHA256.

Definition add32 (a b : Z) : Z := (a + b) mod 2 ^ 32.

Definition rotr (n x : Z) : Z :=
  Z.lor (Z.shiftr x n) (Z.shiftl x (32 - n)) mod 2 ^ 32.

Definition Ch (x y z : Z) : Z :=
  Z.lxor (Z.land x y) (Z.land (Z.lxor x (2 ^ 32 - 1)) z).

Definition Maj (x y z : Z) : Z :=
  Z.lxor (Z.lxor (Z.land x y) (Z.land x z)) (Z.land y z).

Definition bigSigma0 (x : Z) : Z :=
  Z.lxor (Z.lxor (rotr 2 x) (rotr 13 x)) (rotr 22 x).

Definition bigSigma1 (x : Z) : Z :=
  Z.lxor (Z.lxor (rotr 6 x) (rotr 11 x)) (rotr 25 x).

Definition smallSigma0 (x : Z) : Z :=
  Z.lxor (Z.lxor (rotr 7 x) (rotr 18 x)) (Z.shiftr x 3).

Definition smallSigma1 (x : Z) : Z :=
  Z.lxor (Z.lxor (rotr 17 x) (rotr 19 x)) (Z.shiftr x 10).

(** The primes among [k, k + fuel), after those already [found]. *)
Fixpoint primes_from (fuel : nat) (k : Z) (found : list Z) : list Z :=
  match fuel with
  | O => found
  | S fuel' =>
      if forallb (fun p => negb (k mod p =? 0)) found
      then primes_from fuel' (k + 1) (found ++ [k])
      else primes_from fuel' (k + 1) found
  end.

(** The integer cube root of [n], searched between [lo] and [hi]. *)
Fixpoint cube_root (fuel : nat) (lo hi n : Z) : Z :=
  match fuel with
  | O => lo
  | S fuel' =>
      let mid := (lo + hi + 1) / 2 in
      if mid * mid * mid <=? n then cube_root fuel' mid hi n
      else cube_root fuel' lo (mid - 1) n
  end.

(** The round constants: the first 32 bits of the fractional parts of
    the cube roots of the first 64 primes. *)
Definition K : list Z :=
  Eval vm_compute in
    map (fun p => cube_root 48 0 (2 ^ 40) (p * 2 ^ 96) mod 2 ^ 32)
        (primes_from 310 2 []).

(** Big-endian encoding of [x] on [n] bytes. *)
Fixpoint be_bytes (n : nat) (x : Z) : list Z :=
  match n with
  | O => []
  | S n' => (Z.shiftr x (8 * Z.of_nat n')) mod 256 :: be_bytes n' x
  end.

(** The message followed by the bit 1, zero bytes up to 56 modulo 64,
    and the bit length on 8 bytes. *)
Definition pad (msg : list Z) : list Z :=
  let len := Z.of_nat (length msg) in
  let zeros := Z.to_nat ((55 - len) mod 64) in
  msg ++ 0x80 :: repeat 0 zeros ++ be_bytes 8 (8 * len).

Fixpoint be_words (n : nat) (bs : list Z) : list Z :=
  match n, bs with
  | S n', b0 :: b1 :: b2 :: b3 :: rest =>
      (b0 * 2 ^ 24 + b1 * 2 ^ 16 + b2 * 2 ^ 8 + b3) :: be_words n' rest
  | _, _ => []
  end.

Fixpoint schedule (n : nat) (ws : list Z) : list Z :=
  match n with
  | O => ws
  | S n' =>
      let t := length ws in
      let w := add32 (add32 (smallSigma1 (nth (t - 2) ws 0)) (nth (t - 7) ws 0))
                     (add32 (smallSigma0 (nth (t - 15) ws 0)) (nth (t - 16) ws 0)) in
      schedule n' (ws ++ [w])
  end.

Record regs := Regs { ra : Z; rb : Z; rc : Z; rd : Z; re : Z; rf : Z; rg : Z; rh : Z }.

Definition round (s : regs) (kw : Z * Z) : regs :=
  let '(k, w) := kw in
  let t1 := add32 (add32 (add32 (rh s) (bigSigma1 (re s)))
                         (add32 (Ch (re s) (rf s) (rg s)) k)) w in
  let t2 := add32 (bigSigma0 (ra s)) (Maj (ra s) (rb s) (rc s)) in
  Regs (add32 t1 t2) (ra s) (rb s) (rc s) (add32 (rd s) t1) (re s) (rf s) (rg s).

Definition compress (h : regs) (block : list Z) : regs :=
  let ws := schedule 48 (be_words 16 block) in
  let s := fold_left round (combine K ws) h in
  Regs (add32 (ra h) (ra s)) (add32 (rb h) (rb s)) (add32 (rc h) (rc s))
       (add32 (rd h) (rd s)) (add32 (re h) (re s)) (add32 (rf h) (rf s))
       (add32 (rg h) (rg s)) (add32 (rh h) (rh s)).

Fixpoint blocks (n : nat) (h : regs) (bs : list Z) : regs :=
  match n with
  | O => h
  | S n' => blocks n' (compress h (firstn 64 bs)) (skipn 64 bs)
  end.

(** The initial hash value: the first 32 bits of the fractional parts of
    the square roots of the first 8 primes. *)
Definition frac_sqrt (p : Z) : Z := Z.sqrt (p * 2 ^ 64) mod 2 ^ 32.

Definition initial : regs :=
  Eval vm_compute in
    Regs (frac_sqrt 2) (frac_sqrt 3) (frac_sqrt 5) (frac_sqrt 7)
         (frac_sqrt 11) (frac_sqrt 13) (frac_sqrt 17) (frac_sqrt 19).

Definition digest (msg : list Z) : list Z :=
  let p := pad msg in
  let h := blocks (length p / 64)%nat initial p in
  concat (map (be_bytes 4) [ra h; rb h; rc h; rd h; re h; rf h; rg h; rh h]).

Definition hex_digit (d : Z) : ascii :=
  ascii_of_nat (Z.to_nat (if d <? 10 then 48 + d else 87 + d)).

Fixpoint hex (bs : list Z) : string :=
  match bs with
  | [] => EmptyString
  | b :: rest => String (hex_digit (b / 16)) (String (hex_digit (b mod 16)) (hex rest))
  end.

Fixpoint bytes_of_string (s : string) : list Z :=
  match s with
  | EmptyString => []
  | String c rest => Z.of_nat (nat_of_ascii c) :: bytes_of_string rest
  end.

(** [createHash('sha256').update(s).digest('hex')] *)
Definition hexdigest (s : string) : string := hex (digest (bytes_of_string s)).

End SHA256.

(** ** JavaScript values, errors and results *)

Inductive JsValue :=
| JUndefined
| JNull
| JBool (b : bool)
| JNum (n : Z)
| JStr (s : string)
| JArr (items : list JsValue)
| JObj (props : list (string * JsValue)).

(** The error objects the code inspects: [e.code], [e.reason], [e.message]. *)
Record JsError := mkError {
  err_code : option string;
  err_reason : option string;
  err_message : string
}.

Inductive Result (A : Type) :=
| Ok (a : A)
| Throw (e : JsError).
Arguments Ok {A} a.
Arguments Throw {A} e.

(** [!!v] *)
Definition truthy (v : JsValue) : bool :=
  match v with
  | JUndefined | JNull => false
  | JBool b => b
  | JNum n => negb (n =? 0)
  | JStr EmptyString => false
  | JStr _ | JArr _ | JObj _ => true
  end.

Definition truthy_string (s : string) : bool :=
  match s with EmptyString => false | String _ _ => true end.

(** A string-valued field of the request body or of [process.env]:
    [None] is [undefined]. *)
Definition truthy_str (v : option string) : bool :=
  match v with
  | None => false
  | Some s => truthy_string s
  end.

(** [v || ''] *)
Definition or_empty (v : option string) : string := default EmptyString v.

(** [a || b] on strings *)
Definition or_else (a b : string) : string := if truthy_string a then a else b.

(** [`${v}`] *)
Definition template (v : option string) : string := default "undefined" v.

Definition js_of_str (v : option string) : JsValue :=
  match v with Some s => JStr s | None => JUndefined end.

(** [a === s] for a string literal [s]. *)
Definition str_is (a : option string) (s : string) : bool :=
  match a with Some a' => String.eqb a' s | None => false end.

Fixpoint assoc {A} (k : string) (l : list (string * A)) : option A :=
  match l with
  | [] => None
  | (k', v) :: rest => if String.eqb k k' then Some v else assoc k rest
  end.

(** [o[k] = v] on an object in property order. *)
Fixpoint obj_set (k : string) (v : JsValue) (o : list (string * JsValue))
  : list (string * JsValue) :=
  match o with
  | [] => [(k, v)]
  | (k', v') :: rest =>
      if String.eqb k k' then (k, v) :: rest else (k', v') :: obj_set k v rest
  end.

(** [{ ...o, ...meta }] *)
Definition spread (o meta : list (string * JsValue)) : list (string * JsValue) :=
  fold_left (fun acc kv => obj_set (fst kv) (snd kv) acc) meta o.

(** [v?.k] for a key that no primitive, array or prototype carries
    (the code reads [expiresAt] only). *)
Definition opt_get (v : JsValue) (k : string) : JsValue :=
  match v with
  | JObj props => default JUndefined (assoc k props)
  | _ => JUndefined
  end.

Definition TypeError (msg : string) : JsError := mkError None None msg.

(** [v.k]: reading a property of [null] or [undefined] throws. *)
Definition get (v : JsValue) (k : string) : Result JsValue :=
  match v with
  | JUndefined | JNull => Throw (TypeError "Cannot read properties of null")
  | _ => Ok (opt_get v k)
  end.

(** [typeof v === 'number' && v > now] *)
Definition number_above (v : JsValue) (now : Z) : bool :=
  match v with JNum e => now <? e | _ => false end.

Definition as_number (v : JsValue) : Z :=
  match v with JNum e => e | _ => 0 end.

(** [Math.ceil(a / b)] for integers [a] and [b > 0]. *)
Definition Math_ceil_div (a b : Z) : Z := - ((- a) / b).

(** [Number(z)] for a BigInt [z]: the double nearest to [z], a tie going
    to the even significand. An integer below 2^53 in size is kept;
    beyond, [z] is cut to its 53 leading bits [q] and the rest [r]
    decides the rounding. The BigInts the code converts are sums and
    differences of [uint256] values and timestamps, far below 2^1024
    where a double overflows. *)
Definition Number_of_BigInt (z : Z) : Z :=
  let a := Z.abs z in
  if a <? 2 ^ 53 then z
  else
    let e := Z.log2 a - 52 in
    let q := a / 2 ^ e in
    let r := a mod 2 ^ e in
    let half := 2 ^ (e - 1) in
    let q' := if (half <? r) || ((r =? half) && Z.odd q) then q + 1 else q in
    Z.sgn z * (q' * 2 ^ e).

(** [s.replace(pat, '')]: the first occurrence of [pat] is removed. *)
Fixpoint remove_first (pat s : string) : string :=
  if String.prefix pat s then String.substring (String.length pat)
                                (String.length s - String.length pat) s
  else match s with
       | EmptyString => EmptyString
       | String c rest => String c (remove_first pat rest)
       end.

(** ** The world outside the process *)

Inductive FsOp := OpMkdir | OpRead | OpWrite | OpUnlink.

(** What [fetch] resolves to; [resp.json()] throws on an unparseable body. *)
Record HttpResponse := mkHttp {
  resp_json : Result JsValue
}.

(** The result of [table[key]] on the two configuration tables: a
    configured string, [undefined], or a member inherited from
    [Object.prototype]. *)
Inductive Looked :=
| LUndefined
| LString (s : string)
| LBuiltin (name : string).

Definition truthy_looked (v : Looked) : bool :=
  match v with
  | LUndefined | LString EmptyString => false
  | LString _ | LBuiltin _ => true
  end.

Record TxResponse := mkTx {
  tx_hash : string;
  tx_wait : Result unit
}.

(** The contract binding [new ethers.Contract(address, faucetABI, signer)]
    seen through the four calls of [faucetABI]. A failure to build the
    provider or the contract surfaces at the first call, [claimAmount]. *)
Record Faucet := mkFaucet {
  claimAmount : Result Z;
  adminClaimFor : option string -> Result TxResponse;
  lastClaim : option string -> Result Z;
  cooldown : Result Z
}.

Record Env := mkEnv {
  env_HCAPTCHA_SECRET : option string;
  env_TRUST_PROXY : option string;
  env_POLYGON_RPC : option string;
  env_AVAX_RPC : option string;
  env_SEPOLIA_RPC : option string;
  env_BASE_RPC : option string;
  os_tmpdir : string;
  (** the successive readings of [Date.now()] *)
  clock : nat -> Z;
  (** [fetch] of a URL with form fields: it throws on a network failure *)
  http_post : string -> list (string * string) -> Result HttpResponse;
  JSON_parse : string -> option JsValue;
  JSON_stringify : JsValue -> string;
  isAddress : string -> bool;
  contract_at : Looked -> Looked -> Faucet;
  (** operations the operating system refuses on a path *)
  fs_denied : FsOp -> string -> bool
}.

Inductive ChainCall :=
| CallClaimAmount
| CallAdminClaimFor (recipient : option string)
| CallTxWait (hash : string)
| CallLastClaim (recipient : option string)
| CallCooldown.

Inductive Event :=
| EvFetch (url : string) (params : list (string * string))
| EvMkdir (path : string)
| EvReadFile (path : string)
| EvWriteFile (path : string) (data : string)
| EvUnlink (path : string)
| EvChain (rpcUrl contractAddress : Looked) (call : ChainCall).

Record World := mkWorld {
  files : gmap string string;
  ticks : nat;
  trace : list Event
}.

Definition is_store_op (ev : Event) : bool :=
  match ev with
  | EvMkdir _ | EvReadFile _ | EvWriteFile _ _ | EvUnlink _ => true
  | _ => false
  end.

Definition is_chain_call (ev : Event) : bool :=
  match ev with EvChain _ _ _ => true | _ => false end.

Definition is_dispatch (ev : Event) : bool :=
  match ev with EvChain _ _ (CallAdminClaimFor _) => true | _ => false end.

(** The events a run from [w] to [w'] added. *)
Definition events_since (w w' : World) : list Event :=
  skipn (length (trace w)) (trace w').

(** ** The monad of asynchronous computations *)

Definition M (A : Type) : Type := World -> Result A * World.

Definition ret {A} (a : A) : M A := fun w => (Ok a, w).

Definition throw {A} (e : JsError) : M A := fun w => (Throw e, w).

Definition bind {A B} (m : M A) (k : A -> M B) : M B :=
  fun w =>
    match m w with
    | (Ok a, w') => k a w'
    | (Throw e, w') => (Throw e, w')
    end.

(** [try { m } catch (e) { h e }] *)
Definition try_catch {A} (m : M A) (h : JsError -> M A) : M A :=
  fun w =>
    match m w with
    | (Ok a, w') => (Ok a, w')
    | (Throw e, w') => h e w'
    end.

Definition lift {A} (r : Result A) : M A := fun w => (r, w).

Definition emit (ev : Event) : M unit :=
  fun w => (Ok tt, mkWorld (files w) (ticks w) (trace w ++ [ev])).

Notation "x <- m ;; k" := (bind m (fun x => k))
  (at level 20, m at level 99, k at level 200).

(** ** The server *)

Record Request := mkRequest {
  body_network : option string;
  body_recipient : option string;
  body_captchaToken : option string;
  req_ip : option string;
  req_remoteAddress : option string
}.

(** [res.status(code).send(body)] *)
Record Response := mkResponse {
  status : Z;
  body : list (string * JsValue)
}.

(** The names every object inherits from [Object.prototype]. *)
Definition Object_prototype : list string :=
  [ "constructor"; "__defineGetter__"; "__defineSetter__"; "hasOwnProperty";
    "__lookupGetter__"; "__lookupSetter__"; "isPrototypeOf";
    "propertyIsEnumerable"; "toString"; "valueOf"; "__proto__";
    "toLocaleString" ].

(** [table[key]] *)
Definition lookup (table : list (string * option string)) (key : option string)
  : Looked :=
  let k := template key in
  match assoc k table with
  | Some (Some s) => LString s
  | Some None => LUndefined
  | None => if existsb (String.eqb k) Object_prototype then LBuiltin k
            else LUndefined
  end.

Definition FAUCET_CONTRACTS : list (string * option string) :=
  [ ("amoy", Some "0x9c33b5Ad90570262A4b49abAFf47e4Ef7DeC3c08");
    ("avax", Some "0x9c33b5Ad90570262A4b49abAFf47e4Ef7DeC3c08");
    ("sepolia", Some "0x9c33b5Ad90570262A4b49abAFf47e4Ef7DeC3c08");
    ("base", Some "0x9c33b5Ad90570262A4b49abAFf47e4Ef7DeC3c08") ].

Definition COOLDOWN_MS : Z := 24 * 60 * 60 * 1000.
Definition PENDING_MS : Z := 60 * 1000.

(** [path.join(a, b)] for a normalised directory [a] and a file name [b]. *)
Definition path_join (a b : string) : string := a +:+ "/" +:+ b.

Definition hashKey (ip : string) (network : option string) : string :=
  SHA256.hexdigest (ip +:+ "|" +:+ template network).

Definition res_send (code : Z) (obj : list (string * JsValue)) : M Response :=
  ret (mkResponse code obj).

Section Server.

Variable env : Env.

Definition RPC : list (string * option string) :=
  [ ("amoy", env_POLYGON_RPC env);
    ("avax", env_AVAX_RPC env);
    ("sepolia", env_SEPOLIA_RPC env);
    ("base", env_BASE_RPC env) ].

Definition HCAPTCHA_SECRET : string := or_empty (env_HCAPTCHA_SECRET env).

Definition LOCK_DIR : string := path_join (os_tmpdir env) "strawhat-faucet-locks".

(** *** Primitives of the runtime *)

Definition Date_now : M Z :=
  fun w => (Ok (clock env (ticks w)), mkWorld (files w) (S (ticks w)) (trace w)).

Definition fetch (url : string) (params : list (string * string)) : M HttpResponse :=
  _ <- emit (EvFetch url params) ;; lift (http_post env url params).

Definition fs_error (code : string) (p : string) : JsError :=
  mkError (Some code) None (code +:+ ": " +:+ p).

Definition fs_mkdir (p : string) : M unit :=
  _ <- emit (EvMkdir p) ;;
  if fs_denied env OpMkdir p then throw (fs_error "EACCES" p) else ret tt.

Definition fs_readFile (p : string) : M string :=
  _ <- emit (EvReadFile p) ;;
  fun w =>
    if fs_denied env OpRead p then (Throw (fs_error "EACCES" p), w)
    else match files w !! p with
         | Some raw => (Ok raw, w)
         | None => (Throw (fs_error "ENOENT" p), w)
         end.

Definition fs_writeFile (p data : string) : M unit :=
  _ <- emit (EvWriteFile p data) ;;
  fun w =>
    if fs_denied env OpWrite p then (Throw (fs_error "EACCES" p), w)
    else (Ok tt, mkWorld (<[p := data]> (files w)) (ticks w) (trace w)).

Definition fs_unlink (p : string) : M unit :=
  _ <- emit (EvUnlink p) ;;
  fun w =>
    if fs_denied env OpUnlink p then (Throw (fs_error "EACCES" p), w)
    else match files w !! p with
         | Some _ => (Ok tt, mkWorld (delete p (files w)) (ticks w) (trace w))
         | None => (Throw (fs_error "ENOENT" p), w)
         end.

Definition JSON_parse_or_throw (raw : string) : M JsValue :=
  match JSON_parse env raw with
  | Some v => ret v
  | None => throw (mkError None None "Unexpected token in JSON")
  end.

(** *** hCaptcha verification *)

Definition verifyHCaptcha (token : option string) (remoteip : string) : M bool :=
  if negb (truthy_string HCAPTCHA_SECRET) then ret false
  else
    try_catch
      (let params := [("secret", HCAPTCHA_SECRET)] in
       let params := params ++ [("response", or_empty token)] in
       let params := if truthy_string remoteip
                     then params ++ [("remoteip", remoteip)] else params in
       resp <- fetch "https://hcaptcha.com/siteverify" params ;;
       data <- lift (resp_json resp) ;;
       success <- lift (get data "success") ;;
       ret (truthy success))
      (fun _ => ret false).

(** *** IP cooldown using filesystem locks *)

Definition getClientIp (req : Request) : string :=
  if str_is (env_TRUST_PROXY env) "true" then
    or_else (remove_first "::ffff:" (or_empty (req_ip req)))
      (or_else (or_empty (req_remoteAddress req)) "0.0.0.0")
  else
    let ra := remove_first "::ffff:" (or_empty (req_remoteAddress req)) in
    or_else ra "0.0.0.0".

Definition ensureLockDir : M unit :=
  try_catch (fs_mkdir LOCK_DIR) (fun _ => ret tt).

Definition lockPathFor (ip : string) (network : option string) : string :=
  path_join LOCK_DIR (hashKey ip network +:+ ".lock").

Definition pendingPathFor (ip : string) (network : option string) : string :=
  path_join LOCK_DIR (hashKey ip network +:+ ".pending").

Definition getIpCooldown (ip : string) (network : option string) : M Z :=
  _ <- ensureLockDir ;;
  try_catch
    (let p := lockPathFor ip network in
     raw <- fs_readFile p ;;
     data <- JSON_parse_or_throw raw ;;
     now <- Date_now ;;
     if number_above (opt_get data "expiresAt") now then
       ret (as_number (opt_get data "expiresAt") - now)
     else
       (* expired -> cleanup *)
       _ <- try_catch (fs_unlink p) (fun _ => ret tt) ;;
       ret 0)
    (fun _ => ret 0).

Definition setIpCooldown (ip : string) (network : option string)
    (meta : list (string * JsValue)) : M unit :=
  _ <- ensureLockDir ;;
  let p := lockPathFor ip network in
  firstSeenAt <- Date_now ;;
  now <- Date_now ;;
  let payload :=
    spread [("firstSeenAt", JNum firstSeenAt); ("expiresAt", JNum (now + COOLDOWN_MS))]
           meta in
  try_catch (fs_writeFile p (JSON_stringify env (JObj payload))) (fun _ => ret tt).

Definition clearIpCooldown (ip : string) (network : option string) : M unit :=
  try_catch (fs_unlink (lockPathFor ip network)) (fun _ => ret tt).

Definition getIpPending (ip : string) (network : option string) : M Z :=
  _ <- ensureLockDir ;;
  try_catch
    (let p := pendingPathFor ip network in
     raw <- fs_readFile p ;;
     data <- JSON_parse_or_throw raw ;;
     now <- Date_now ;;
     if number_above (opt_get data "expiresAt") now then
       ret (as_number (opt_get data "expiresAt") - now)
     else
       _ <- try_catch (fs_unlink p) (fun _ => ret tt) ;;
       ret 0)
    (fun _ => ret 0).

Definition setIpPending (ip : string) (network : option string)
    (meta : list (string * JsValue)) : M unit :=
  _ <- ensureLockDir ;;
  let p := pendingPathFor ip network in
  firstSeenAt <- Date_now ;;
  now <- Date_now ;;
  let payload :=
    spread [("firstSeenAt", JNum firstSeenAt); ("expiresAt", JNum (now + PENDING_MS))]
           meta in
  try_catch (fs_writeFile p (JSON_stringify env (JObj payload))) (fun _ => ret tt).

Definition clearIpPending (ip : string) (network : option string) : M unit :=
  try_catch (fs_unlink (pendingPathFor ip network)) (fun _ => ret tt).

(** *** The [/claim] route *)

Definition ethers_isAddress (v : option string) : bool :=
  match v with Some s => isAddress env s | None => false end.

Definition rpc {A} (rpcUrl contractAddress : Looked) (c : ChainCall) (r : Result A)
  : M A :=
  _ <- emit (EvChain rpcUrl contractAddress c) ;; lift r.

Definition claim (req : Request) : M Response :=
  try_catch
    (let network := body_network req in
     let recipient := body_recipient req in
     let captchaToken := body_captchaToken req in
     let clientIp := getClientIp req in
     (* 1) Human verification first *)
     if negb (truthy_str captchaToken) then
       res_send 400 [("success", JBool false); ("error", JStr "Invalid captcha")]
     else
     captchaOk <- verifyHCaptcha captchaToken clientIp ;;
     if negb captchaOk then
       res_send 400 [("success", JBool false); ("error", JStr "Invalid captcha")]
     else
     (* 2) Enforce per-IP cooldown and pending lock *)
     remaining <- getIpCooldown clientIp network ;;
     if remaining >? 0 then
       res_send 429 [("success", JBool false);
                     ("error", JStr "Wait before next claim");
                     ("wait", JNum (Math_ceil_div remaining 1000))]
     else
     pending <- getIpPending clientIp network ;;
     if pending >? 0 then
       res_send 429 [("success", JBool false);
                     ("error", JStr "Wait before next claim");
                     ("wait", JNum (Math_ceil_div pending 1000))]
     else
     _ <- setIpPending clientIp network
       [("recipient", js_of_str recipient); ("network", js_of_str network)] ;;
     let rpcUrl := lookup RPC network in
     let contractAddress := lookup FAUCET_CONTRACTS network in
     if negb (truthy_looked rpcUrl) || negb (truthy_looked contractAddress) then
       res_send 400 [("success", JBool false); ("error", JStr "Invalid network")]
     else
     if negb (ethers_isAddress recipient) then
       res_send 400 [("success", JBool false);
                     ("error", JStr "Invalid recipient address")]
     else
     let faucet := contract_at env rpcUrl contractAddress in
     claimAmt <- rpc rpcUrl contractAddress CallClaimAmount (claimAmount faucet) ;;
     try_catch
       (tx <- rpc rpcUrl contractAddress (CallAdminClaimFor recipient)
                (adminClaimFor faucet recipient) ;;
        _ <- rpc rpcUrl contractAddress (CallTxWait (tx_hash tx)) (tx_wait tx) ;;
        (* On success, set IP cooldown for 24h *)
        _ <- setIpCooldown clientIp network
          [("lastAddress", js_of_str recipient);
           ("lastNetwork", js_of_str network);
           ("txHash", JStr (tx_hash tx))] ;;
        _ <- clearIpPending clientIp network ;;
        res_send 200 [("success", JBool true); ("txHash", JStr (tx_hash tx))])
       (fun e =>
          if str_is (err_code e) "CALL_EXCEPTION"
             && str_is (err_reason e) "Wait before next claim" then
            last <- rpc rpcUrl contractAddress (CallLastClaim recipient)
                      (lastClaim faucet recipient) ;;
            cooldown <- rpc rpcUrl contractAddress CallCooldown (cooldown faucet) ;;
            ms <- Date_now ;;
            let now := ms / 1000 in
            let waitSeconds := Number_of_BigInt (last + cooldown - now) in
            _ <- clearIpPending clientIp network ;;
            res_send 400 [("success", JBool false);
                          ("error", JStr "Wait before next claim");
                          ("wait", JNum (if waitSeconds >? 0 then waitSeconds else 0))]
          else
            _ <- clearIpPending clientIp network ;;
            throw e))
    (fun e => res_send 500 [("success", JBool false); ("error", JStr (err_message e))]).

End Server.

(** ** Readings of the model used to state the properties *)

(** [w] with more events in its trace. *)
Definition logged (evs : list Event) (w : World) : World :=
  mkWorld (files w) (ticks w) (trace w ++ evs).

(** What [JSON.parse(await fs.readFile(p))] yields in [w], when it yields. *)
Definition stored (env : Env) (w : World) (p : string) : option JsValue :=
  if fs_denied env OpRead p then None
  else match files w !! p with
       | Some raw => JSON_parse env raw
       | None => None
       end.

Definition expiry (data : JsValue) : JsValue := opt_get data "expiresAt".

(** The record at [p] is readable and carries the number [e] as [expiresAt]. *)
Definition expires_at (env : Env) (w : World) (p : string) (e : Z) : Prop :=
  exists data, stored env w p = Some data /\ expiry data = JNum e.

(** The record at [p] is unreadable, is not JSON, or has no numeric
    [expiresAt]. *)
Definition corrupt (env : Env) (w : World) (p : string) : Prop :=
  fs_denied env OpRead p = true
  \/ (exists raw, files w !! p = Some raw /\ JSON_parse env raw = None)
  \/ (exists data, stored env w p = Some data /\ forall e, expiry data <> JNum e).

(** The body the two readers [getIpCooldown] and [getIpPending] share. *)
Definition read_lock (env : Env) (p : string) : M Z :=
  _ <- ensureLockDir env ;;
  try_catch
    (raw <- fs_readFile env p ;;
     data <- JSON_parse_or_throw env raw ;;
     now <- Date_now env ;;
     if number_above (opt_get data "expiresAt") now then
       ret (as_number (opt_get data "expiresAt") - now)
     else
       _ <- try_catch (fs_unlink env p) (fun _ => ret tt) ;;
       ret 0)
    (fun _ => ret 0).

(** The payload [{ firstSeenAt, expiresAt: now + ttl, ...meta }]. *)
Definition payload (firstSeenAt now ttl : Z) (meta : list (string * JsValue)) : JsValue :=
  JObj (spread [("firstSeenAt", JNum firstSeenAt); ("expiresAt", JNum (now + ttl))] meta).

(** The body the two writers [setIpCooldown] and [setIpPending] share. *)
Definition write_lock (env : Env) (p : string) (ttl : Z) (meta : list (string * JsValue))
  : M unit :=
  _ <- ensureLockDir env ;;
  firstSeenAt <- Date_now env ;;
  now <- Date_now env ;;
  try_catch (fs_writeFile env p (JSON_stringify env (payload firstSeenAt now ttl meta)))
            (fun _ => ret tt).

Definition clear_lock (env : Env) (p : string) : M unit :=
  try_catch (fs_unlink env p) (fun _ => ret tt).

(** Whether the upstream answer carries a truthy [success]. *)
Definition reports_success (r : Result HttpResponse) : bool :=
  match r with
  | Ok resp =>
      match resp_json resp with
      | Ok data => match get data "success" with
                   | Ok v => truthy v
                   | Throw _ => false
                   end
      | Throw _ => false
      end
  | Throw _ => false
  end.

Definition siteverify_url : string := "https://hcaptcha.com/siteverify".

(** The form fields [verifyHCaptcha] posts. *)
Definition siteverify_params (env : Env) (token : option string) (remoteip : string)
  : list (string * string) :=
  [("secret", HCAPTCHA_SECRET env); ("response", or_empty token)]
  ++ (if truthy_string remoteip then [("remoteip", remoteip)] else []).

(** What [verifyHCaptcha] answers, and the world it leaves. *)
Definition verdict (env : Env) (token : option string) (remoteip : string) : bool :=
  truthy_string (HCAPTCHA_SECRET env)
  && reports_success (http_post env siteverify_url (siteverify_params env token remoteip)).

Definition after_verify (env : Env) (token : option string) (remoteip : string)
    (w : World) : World :=
  if truthy_string (HCAPTCHA_SECRET env)
  then logged [EvFetch siteverify_url (siteverify_params env token remoteip)] w
  else w.

(** What a reader answers for the record at [p], and the world it leaves. *)
Definition remaining (env : Env) (w : World) (p : string) : Z :=
  match stored env w p with
  | Some data =>
      let now := clock env (ticks w) in
      if number_above (expiry data) now then as_number (expiry data) - now else 0
  | None => 0
  end.

Definition after_read (env : Env) (p : string) (w : World) : World :=
  match stored env w p with
  | None => logged [EvMkdir (LOCK_DIR env); EvReadFile p] w
  | Some data =>
      if number_above (expiry data) (clock env (ticks w)) then
        mkWorld (files w) (S (ticks w))
                (trace w ++ [EvMkdir (LOCK_DIR env); EvReadFile p])
      else
        mkWorld (if fs_denied env OpUnlink p then files w else delete p (files w))
                (S (ticks w))
                (trace w ++ [EvMkdir (LOCK_DIR env); EvReadFile p; EvUnlink p])
  end.

(** The text a writer stores at its second clock reading in [w]. *)
Definition written (env : Env) (ttl : Z) (meta : list (string * JsValue)) (w : World)
  : string :=
  JSON_stringify env (payload (clock env (ticks w)) (clock env (S (ticks w))) ttl meta).

Definition after_write (env : Env) (p : string) (ttl : Z)
    (meta : list (string * JsValue)) (w : World) : World :=
  mkWorld (if fs_denied env OpWrite p then files w
           else <[p := written env ttl meta w]> (files w))
          (S (S (ticks w)))
          (trace w ++ [EvMkdir (LOCK_DIR env); EvWriteFile p (written env ttl meta w)]).

Definition after_clear (env : Env) (p : string) (w : World) : World :=
  mkWorld (if fs_denied env OpUnlink p then files w else delete p (files w))
          (ticks w) (trace w ++ [EvUnlink p]).

(** [adminClaimFor] followed by [tx.wait()]: the hash of the confirmed
    transaction, or what either call threw. *)
Definition dispatch (f : Faucet) (recipient : option string) : Result string :=
  match adminClaimFor f recipient with
  | Ok tx => match tx_wait tx with
             | Ok _ => Ok (tx_hash tx)
             | Throw e => Throw e
             end
  | Throw e => Throw e
  end.

Definition invalid_captcha : Response :=
  mkResponse 400 [("success", JBool false); ("error", JStr "Invalid captcha")].

Definition invalid_network : Response :=
  mkResponse 400 [("success", JBool false); ("error", JStr "Invalid network")].

Definition invalid_recipient : Response :=
  mkResponse 400 [("success", JBool false); ("error", JStr "Invalid recipient address")].

Definition wait_response (code wait : Z) : Response :=
  mkResponse code [("success", JBool false);
                   ("error", JStr "Wait before next claim");
                   ("wait", JNum wait)].

Definition success_response (hash : string) : Response :=
  mkResponse 200 [("success", JBool true); ("txHash", JStr hash)].

Definition failure_response (e : JsError) : Response :=
  mkResponse 500 [("success", JBool false); ("error", JStr (err_message e))].

(** The route up to the dispatch: [Some resp] when it answers early,
    [None] when it goes on to [adminClaimFor]. *)
Definition gates (env : Env) (req : Request) : M (option Response) :=
  let network := body_network req in
  let recipient := body_recipient req in
  let captchaToken := body_captchaToken req in
  let clientIp := getClientIp env req in
  if negb (truthy_str captchaToken) then ret (Some invalid_captcha)
  else
  captchaOk <- verifyHCaptcha env captchaToken clientIp ;;
  if negb captchaOk then ret (Some invalid_captcha)
  else
  remaining <- getIpCooldown env clientIp network ;;
  if remaining >? 0 then ret (Some (wait_response 429 (Math_ceil_div remaining 1000)))
  else
  pending <- getIpPending env clientIp network ;;
  if pending >? 0 then ret (Some (wait_response 429 (Math_ceil_div pending 1000)))
  else
  _ <- setIpPending env clientIp network
         [("recipient", js_of_str recipient); ("network", js_of_str network)] ;;
  let rpcUrl := lookup (RPC env) network in
  let contractAddress := lookup FAUCET_CONTRACTS network in
  if negb (truthy_looked rpcUrl) || negb (truthy_looked contractAddress) then
    ret (Some invalid_network)
  else
  if negb (ethers_isAddress env recipient) then ret (Some invalid_recipient)
  else
  _ <- rpc rpcUrl contractAddress CallClaimAmount
         (claimAmount (contract_at env rpcUrl contractAddress)) ;;
  ret None.

(** The route from the dispatch on: the inner [try ... catch]. *)
Definition settle (env : Env) (req : Request) : M Response :=
  let network := body_network req in
  let recipient := body_recipient req in
  let clientIp := getClientIp env req in
  let rpcUrl := lookup (RPC env) network in
  let contractAddress := lookup FAUCET_CONTRACTS network in
  let faucet := contract_at env rpcUrl contractAddress in
  try_catch
    (tx <- rpc rpcUrl contractAddress (CallAdminClaimFor recipient)
             (adminClaimFor faucet recipient) ;;
     _ <- rpc rpcUrl contractAddress (CallTxWait (tx_hash tx)) (tx_wait tx) ;;
     _ <- setIpCooldown env clientIp network
            [("lastAddress", js_of_str recipient);
             ("lastNetwork", js_of_str network);
             ("txHash", JStr (tx_hash tx))] ;;
     _ <- clearIpPending env clientIp network ;;
     res_send 200 [("success", JBool true); ("txHash", JStr (tx_hash tx))])
    (fun e =>
       if str_is (err_code e) "CALL_EXCEPTION"
          && str_is (err_reason e) "Wait before next claim" then
         last <- rpc rpcUrl contractAddress (CallLastClaim recipient)
                   (lastClaim faucet recipient) ;;
         cooldown <- rpc rpcUrl contractAddress CallCooldown (cooldown faucet) ;;
         ms <- Date_now env ;;
         let now := ms / 1000 in
         let waitSeconds := Number_of_BigInt (last + cooldown - now) in
         _ <- clearIpPending env clientIp network ;;
         res_send 400 [("success", JBool false);
                       ("error", JStr "Wait before next claim");
                       ("wait", JNum (if waitSeconds >? 0 then waitSeconds else 0))]
       else
         _ <- clearIpPending env clientIp network ;;
         throw e).

(** The worlds the route goes through, stage after stage. *)

Definition lock_path (env : Env) (req : Request) : string :=
  lockPathFor env (getClientIp env req) (body_network req).

Definition pending_path (env : Env) (req : Request) : string :=
  pendingPathFor env (getClientIp env req) (body_network req).

Definition pending_meta (req : Request) : list (string * JsValue) :=
  [("recipient", js_of_str (body_recipient req));
   ("network", js_of_str (body_network req))].

Definition cooldown_meta (req : Request) (hash : string) : list (string * JsValue) :=
  [("lastAddress", js_of_str (body_recipient req));
   ("lastNetwork", js_of_str (body_network req));
   ("txHash", JStr hash)].

Definition rpcUrl_of (env : Env) (req : Request) : Looked :=
  lookup (RPC env) (body_network req).

Definition contract_of (req : Request) : Looked :=
  lookup FAUCET_CONTRACTS (body_network req).

Definition faucet_of (env : Env) (req : Request) : Faucet :=
  contract_at env (rpcUrl_of env req) (contract_of req).

Definition chain (env : Env) (req : Request) (c : ChainCall) : Event :=
  EvChain (rpcUrl_of env req) (contract_of req) c.

Definition verified (env : Env) (req : Request) (w : World) : World :=
  after_verify env (body_captchaToken req) (getClientIp env req) w.

Definition cooldown_checked (env : Env) (req : Request) (w : World) : World :=
  after_read env (lock_path env req) (verified env req w).

Definition pending_checked (env : Env) (req : Request) (w : World) : World :=
  after_read env (pending_path env req) (cooldown_checked env req w).

Definition pending_set (env : Env) (req : Request) (w : World) : World :=
  after_write env (pending_path env req) PENDING_MS (pending_meta req)
              (pending_checked env req w).

Definition quoted (env : Env) (req : Request) (w : World) : World :=
  logged [chain env req CallClaimAmount] (pending_set env req w).

(** The calls the dispatch makes: [tx.wait()] only when [adminClaimFor]
    returned a transaction. *)
Definition dispatch_events (env : Env) (req : Request) : list Event :=
  chain env req (CallAdminClaimFor (body_recipient req))
  :: match adminClaimFor (faucet_of env req) (body_recipient req) with
     | Ok tx => [chain env req (CallTxWait (tx_hash tx))]
     | Throw _ => []
     end.

(** [e.code === "CALL_EXCEPTION" && e.reason === "Wait before next claim"] *)
Definition is_wait_rejection (e : JsError) : bool :=
  str_is (err_code e) "CALL_EXCEPTION" && str_is (err_reason e) "Wait before next claim".

Definition tick (w : World) : World := mkWorld (files w) (S (ticks w)) (trace w).

(** The world after a dispatch that was confirmed with [hash]. *)
Definition promoted (env : Env) (req : Request) (hash : string) (w : World) : World :=
  after_clear env (pending_path env req)
    (after_write env (lock_path env req) COOLDOWN_MS (cooldown_meta req hash)
       (logged (dispatch_events env req) w)).

(** The world after a dispatch the contract refused for its cooldown,
    once [lastClaim] and [cooldown] were read. *)
Definition refused (env : Env) (req : Request) (w : World) : World :=
  after_clear env (pending_path env req)
    (tick (logged [chain env req (CallLastClaim (body_recipient req));
                   chain env req CallCooldown]
             (logged (dispatch_events env req) w))).

(** A stretch of trace without any call to the chain. *)
Definition quiet (d : list Event) : Prop :=
  Forall (fun ev => is_chain_call ev = false) d.

(** [w'] continues [w] without any call to the chain. *)
Definition grows_quietly (w w' : World) : Prop :=
  exists d, trace w' = trace w ++ d /\ quiet d.

(** The record at [p] outlives the clock readings of the two lock checks. *)
Definition live (env : Env) (w : World) (p : string) : Prop :=
  exists e, expires_at env w p e
            /\ clock env (ticks w) < e /\ clock env (S (ticks w)) < e.

(** The request gets past the captcha gate. *)
Definition passes_captcha (env : Env) (req : Request) (w : World) : Prop :=
  truthy_str (body_captchaToken req) = true
  /\ fst (verifyHCaptcha env (body_captchaToken req) (getClientIp env req) w) = Ok true.

(** [RPC[network]] or [FAUCET_CONTRACTS[network]] is falsy. *)
Definition unsupported (env : Env) (req : Request) : Prop :=
  truthy_looked (rpcUrl_of env req) = false \/ truthy_looked (contract_of req) = false.

(** ** The statements under scrutiny *)

(** A reader honours the expiry [e] of the record at [p]: at or past [e]
    it answers 0 and unlinks the file, before [e] it answers the time
    left and leaves the directory alone. [out] is the run of the reader
    from [w]; its clock reading is [clock env (ticks w)]. *)
Definition read_honours_expiry (env : Env) (w : World) (p : string) (e : Z)
    (out : Result Z * World) : Prop :=
  let now := clock env (ticks w) in
  (e <= now ->
     fst out = Ok 0
     /\ In (EvUnlink p) (events_since w (snd out))
     /\ (fs_denied env OpUnlink p = false -> files (snd out) !! p = None))
  /\ (now < e -> fst out = Ok (e - now) /\ files (snd out) = files w).

(** The verifier answers [false] whenever the secret is unconfigured, the
    token is missing or the upstream does not report success. *)
Definition fails_closed (env : Env) (token : option string) (remoteip : string)
    (w : World) : Prop :=
  HCAPTCHA_SECRET env = EmptyString
  \/ token = None
  \/ reports_success (http_post env siteverify_url
                                 (siteverify_params env token remoteip)) = false ->
  fst (verifyHCaptcha env token remoteip w) = Ok false.

(** The record at [p], if it can be read at all, has lapsed by the
    clock readings of the two lock checks. *)
Definition lapsed (env : Env) (w : World) (p : string) : Prop :=
  forall e, expires_at env w p e ->
            e <= clock env (ticks w) /\ e <= clock env (S (ticks w)).

Definition no_dispatch (d : list Event) : Prop :=
  Forall (fun ev => is_dispatch ev = false) d.

(** The route answers 429 with the seconds left of the cooldown record
    expiring at [e], and calls nothing on the chain. *)
Definition blocked_by_cooldown (env : Env) (req : Request) (w : World) (e : Z) : Prop :=
  exists w',
    claim env req w
    = (Ok (mkResponse 429 [("success", JBool false);
                           ("error", JStr "Wait before next claim");
                           ("wait", JNum (Math_ceil_div (e - clock env (ticks w)) 1000))]),
       w')
    /\ quiet (events_since w w').

(** Every request made while the cooldown record has time left is blocked. *)
Definition cooldown_blocks (env : Env) (req : Request) (w : World) : Prop :=
  forall e, expires_at env w (lock_path env req) e ->
            0 < e - clock env (ticks w) ->
            blocked_by_cooldown env req w e.

(** The route answers "Wait before next claim" with 429 or 400 and does
    not reach [adminClaimFor]. *)
Definition rejected_by_lock (env : Env) (req : Request) (w : World) : Prop :=
  exists code wait w',
    (code = 429 \/ code = 400)
    /\ claim env req w = (Ok (wait_response code wait), w')
    /\ no_dispatch (events_since w w').

(** A live lock of the client for the network [held] rejects its request
    for any supported network. *)
Definition lock_covers (env : Env) (w : World) (req : Request) (held : option string)
  : Prop :=
  live env w (lockPathFor env (getClientIp env req) held)
  \/ live env w (pendingPathFor env (getClientIp env req) held) ->
  truthy_looked (rpcUrl_of env req) = true ->
  truthy_looked (contract_of req) = true ->
  rejected_by_lock env req w.

(** A request for an unsupported network is answered "Invalid network"
    before the lock store or the chain is touched. *)
Definition rejects_network_first (env : Env) (req : Request) (w : World) : Prop :=
  unsupported env req ->
  exists w',
    claim env req w = (Ok invalid_network, w')
    /\ Forall (fun ev => is_store_op ev = false /\ is_chain_call ev = false)
              (events_since w w').

(** A run whose dispatch the contract refuses with "Wait before next
    claim" is answered 400 "Wait before next claim" with a [wait] that is
    [max(0, lastClaim + cooldown - now)] for the values the chain holds,
    [now] being the last clock reading of the run in whole seconds, and
    the pending record is gone afterwards. *)
Definition rejection_reports_wait (env : Env) (req : Request) (w : World) : Prop :=
  forall e,
    In (chain env req (CallAdminClaimFor (body_recipient req)))
       (events_since w (snd (claim env req w))) ->
    dispatch (faucet_of env req) (body_recipient req) = Throw e ->
    is_wait_rejection e = true ->
    exists wait,
      fst (claim env req w) = Ok (wait_response 400 wait)
      /\ (forall last cd n,
            lastClaim (faucet_of env req) (body_recipient req) = Ok last ->
            cooldown (faucet_of env req) = Ok cd ->
            ticks (snd (claim env req w)) = S n ->
            wait = Z.max 0 (last + cd - clock env n / 1000))
      /\ files (snd (claim env req w)) !! pending_path env req = None.

(** The network of the request is a key of the tables whose RPC URL is
    set and not empty. *)
Definition configured (env : Env) (req : Request) : bool :=
  match assoc (template (body_network req)) (RPC env) with
  | Some url => truthy_str url
  | None => false
  end.

(** The network of the request is the name of a member every object
    inherits from [Object.prototype]. *)
Definition inherited (req : Request) : bool :=
  existsb (String.eqb (template (body_network req))) Object_prototype.

(** ** Fixtures: a JSON codec for flat objects and concrete deployments

    The theorems hold for every environment; the definitions below give
    concrete ones on which the server can be run. *)

Module FlatJSON.

Definition dq : ascii := "034"%char.

Definition quote (s : string) : string := String dq (s +:+ String dq EmptyString).

Definition digits (n : Z) : string := NilZero.string_of_int (Z.to_int n).

Definition print_value (v : JsValue) : string :=
  match v with
  | JNum n => digits n
  | JStr s => quote s
  | JBool true => "true"
  | JBool false => "false"
  | _ => "null"
  end.

Fixpoint join (l : list string) : string :=
  match l with
  | [] => EmptyString
  | [x] => x
  | x :: rest => x +:+ "," +:+ join rest
  end.

(** [JSON.stringify] leaves out the properties whose value is [undefined]. *)
Definition member (kv : string * JsValue) : list string :=
  match snd kv with
  | JUndefined => []
  | v => [quote (fst kv) +:+ ":" +:+ print_value v]
  end.

Definition stringify (v : JsValue) : string :=
  match v with
  | JObj props => "{" +:+ join (flat_map member props) +:+ "}"
  | _ => print_value v
  end.

Fixpoint until_quote (s : string) : option (string * string) :=
  match s with
  | EmptyString => None
  | String c rest =>
      if Ascii.eqb c dq then Some (EmptyString, rest)
      else match until_quote rest with
           | Some (a, r) => Some (String c a, r)
           | None => None
           end
  end.

Definition is_digit (c : ascii) : bool :=
  Ascii.eqb c "-" || ((48 <=? nat_of_ascii c)%nat && (nat_of_ascii c <=? 57)%nat).

Fixpoint span (s : string) : string * string :=
  match s with
  | EmptyString => (EmptyString, EmptyString)
  | String c rest =>
      if is_digit c then let '(a, r) := span rest in (String c a, r)
      else (EmptyString, s)
  end.

Definition after (n : nat) (s : string) : string :=
  String.substring n (String.length s - n) s.

Definition parse_value (s : string) : option (JsValue * string) :=
  match s with
  | EmptyString => None
  | String c rest =>
      if Ascii.eqb c dq then
        match until_quote rest with
        | Some (a, r) => Some (JStr a, r)
        | None => None
        end
      else if String.prefix "true" s then Some (JBool true, after 4 s)
      else if String.prefix "false" s then Some (JBool false, after 5 s)
      else if String.prefix "null" s then Some (JNull, after 4 s)
      else
        let '(num, r) := span s in
        match num with
        | EmptyString => None
        | _ => match NilZero.int_of_string num with
               | Some i => Some (JNum (Z.of_int i), r)
               | None => None
               end
        end
  end.

Fixpoint parse_members (fuel : nat) (s : string) : option (list (string * JsValue)) :=
  match fuel, s with
  | S fuel', String c rest =>
      if Ascii.eqb c dq then
        match until_quote rest with
        | Some (k, String ":" r) =>
            match parse_value r with
            | Some (v, String "," r') =>
                match parse_members fuel' r' with
                | Some ms => Some ((k, v) :: ms)
                | None => None
                end
            | Some (v, String "}" EmptyString) => Some [(k, v)]
            | _ => None
            end
        | _ => None
        end
      else None
  | _, _ => None
  end.

Definition parse (s : string) : option JsValue :=
  match s with
  | String "{" (String "}" EmptyString) => Some (JObj [])
  | String "{" rest =>
      match parse_members (String.length rest) rest with
      | Some ms => Some (JObj ms)
      | None => None
      end
  | _ => match parse_value s with
         | Some (v, EmptyString) => Some v
         | _ => None
         end
  end.

End FlatJSON.

Module Demo.

Definition address : string := "0x52908400098527886E0F7030069857D2E4169EE7".

Definition tx : TxResponse := mkTx "0xfeedbeef" (Ok tt).

(** A funded faucet nobody has claimed from. *)
Definition paying : Faucet :=
  mkFaucet (Ok 10000000000000000) (fun _ => Ok tx) (fun _ => Ok 0) (Ok 86400).

Definition wait_error : JsError :=
  mkError (Some "CALL_EXCEPTION") (Some "Wait before next claim")
          "execution reverted: Wait before next claim".

(** A faucet the recipient claimed from at second 1699999000. *)
Definition cooling : Faucet :=
  mkFaucet (Ok 10000000000000000) (fun _ => Throw wait_error)
           (fun _ => Ok 1699999000) (Ok 86400).

(** The same faucet behind an endpoint that drops the follow-up reads. *)
Definition flaky : Faucet :=
  let e := mkError (Some "TIMEOUT") None "request timeout" in
  mkFaucet (Ok 10000000000000000) (fun _ => Throw wait_error)
           (fun _ => Throw e) (Throw e).

(** A faucet whose RPC endpoint is down. *)
Definition unreachable : Faucet :=
  let e := mkError (Some "NETWORK_ERROR") None "could not detect network" in
  mkFaucet (Throw e) (fun _ => Throw e) (fun _ => Throw e) (Throw e).

(** What a provider built from something that is no URL gives. *)
Definition broken : Faucet :=
  let e := TypeError "url.clone is not a function" in
  mkFaucet (Throw e) (fun _ => Throw e) (fun _ => Throw e) (Throw e).

Definition verdict (ok : bool) : Result HttpResponse :=
  Ok (mkHttp (Ok (JObj [("success", JBool ok)]))).

(** hCaptcha accepting exactly the token [good-token]. *)
Definition strict (url : string) (params : list (string * string)) : Result HttpResponse :=
  verdict (str_is (assoc "response" params) "good-token").

(** An upstream that reports success whatever it is sent. *)
Definition lenient (url : string) (params : list (string * string)) : Result HttpResponse :=
  verdict true.

Definition looks_like_address (s : string) : bool :=
  String.prefix "0x" s && (String.length s =? 42)%nat.

Definition deployment (post : string -> list (string * string) -> Result HttpResponse)
    (faucet : Faucet) : Env :=
  {| env_HCAPTCHA_SECRET := Some "0xSECRET";
     env_TRUST_PROXY := None;
     env_POLYGON_RPC := None;
     env_AVAX_RPC := None;
     env_SEPOLIA_RPC := Some "https://rpc.example/sepolia";
     env_BASE_RPC := Some "https://rpc.example/base";
     os_tmpdir := "/tmp";
     clock := fun n => 1700000000000 + 250 * Z.of_nat n;
     http_post := post;
     JSON_parse := FlatJSON.parse;
     JSON_stringify := FlatJSON.stringify;
     isAddress := looks_like_address;
     contract_at := fun rpcUrl contractAddress =>
                      match rpcUrl, contractAddress with
                      | LString _, LString _ => faucet
                      | _, _ => broken
                      end;
     fs_denied := fun _ _ => false |}.

Definition env : Env := deployment strict paying.

Definition lenient_env : Env := deployment lenient paying.

Definition cooling_env : Env := deployment strict cooling.

Definition unreachable_env : Env := deployment strict unreachable.

Definition flaky_env : Env := deployment strict flaky.

Definition fresh : World := mkWorld ∅ 0 [].

Definition request (network recipient token : option string) : Request :=
  mkRequest network recipient token None (Some "::ffff:203.0.113.7").

Definition good : Request :=
  request (Some "sepolia") (Some address) (Some "good-token").

Definition ip : string := "203.0.113.7".

Definition no_token : Request := request (Some "sepolia") (Some address) None.

Definition other_network : Request :=
  request (Some "base") (Some address) (Some "good-token").

Definition unknown_network : Request :=
  request (Some "unknown") (Some address) (Some "good-token").

Definition unknown_network_no_token : Request :=
  request (Some "unknown") (Some address) None.

Definition bad_recipient : Request :=
  request (Some "sepolia") (Some "not-an-address") (Some "good-token").

(** The world after a first, successful claim. *)
Definition claimed : World := snd (claim env good fresh).

(** The same lock directory more than a day later. *)
Definition next_day : World := mkWorld (files claimed) (Z.to_nat 400000) [].

(** A lock directory holding a record that is not JSON. *)
Definition garbled : World :=
  mkWorld {[ lockPathFor env ip (Some "sepolia") := "firstSeenAt=1700000000000" ]} 0 [].

End Demo.

(** A faucet whose owner set a cooldown of 2^53 + 1001 seconds, and which
    the recipient claimed from at second 1699999000. *)
Definition patient : Faucet :=
  mkFaucet (Ok 10000000000000000) (fun _ => Throw Demo.wait_error)
           (fun _ => Ok 1699999000) (Ok 9007199254741993).

Definition patient_env : Env := Demo.deployment Demo.strict patient.

(** ** Further notions *)

(** A lowercase hexadecimal digit. *)
Definition is_hex_char (c : ascii) : bool :=
  existsb (Ascii.eqb c) (list_ascii_of_string "0123456789abcdef").

Fixpoint all_chars (f : ascii -> bool) (s : string) : bool :=
  match s with
  | EmptyString => true
  | String c rest => f c && all_chars f rest
  end.

(** [JSON.parse(JSON.stringify(v))] succeeds and keeps [expiresAt]. *)
Definition codec_keeps_expiry (env : Env) (v : JsValue) : Prop :=
  exists data, JSON_parse env (JSON_stringify env v) = Some data
               /\ expiry data = expiry v.

(** [req] with another socket address. *)
Definition from_address (req : Request) (a : option string) : Request :=
  mkRequest (body_network req) (body_recipient req) (body_captchaToken req)
            (req_ip req) a.

(** [req] with another [req.ip]. *)
Definition with_ip (req : Request) (a : option string) : Request :=
  mkRequest (body_network req) (body_recipient req) (body_captchaToken req)
            a (req_remoteAddress req).

(** The request got past every gate of the route: captcha, both lock
    checks (no record with time left at the clock reading of its check),
    the network tables and the address check. *)
Definition eligible (env : Env) (req : Request) (w : World) : Prop :=
  passes_captcha env req w
  /\ (forall e, expires_at env w (lock_path env req) e -> e <= clock env (ticks w))
  /\ (forall e, expires_at env w (pending_path env req) e ->
                e <= clock env (ticks w) \/ e <= clock env (S (ticks w)))
  /\ truthy_looked (rpcUrl_of env req) = true
  /\ truthy_looked (contract_of req) = true
  /\ ethers_isAddress env (body_recipient req) = true.

Definition is_write_to (p : string) (ev : Event) : bool :=
  match ev with EvWriteFile q _ => String.eqb q p | _ => false end.

(** An event of the gates: no call to the chain, no write to [p]. *)
Definition gate_event (p : string) (ev : Event) : bool :=
  negb (is_chain_call ev) && negb (is_write_to p ev).

(** [w'] continues [w] with events of the gates only. *)
Definition grows_gated (p : string) (w w' : World) : Prop :=
  exists d, trace w' = trace w ++ d /\ forallb (gate_event p) d = true.

(** ** The contract [NativeFaucet]

    Amounts, timestamps and addresses are the unsigned integers of the
    EVM as [Z]; the only arithmetic of the contract is the subtraction
    [block.timestamp - lastClaim[a]], whose underflow panics under
    Solidity 0.8. A call that reverts leaves no state behind. The
    functions that are not [payable] are modelled for calls that carry no
    value. A transfer to an address runs the code of that address, which
    accepts or refuses it and does not call back into the faucet. *)

Module NativeFaucet.

Record State := mkState {
  self : Z;                       (* address(this) *)
  owner : Z;
  claimAmount : Z;
  cooldown : Z;
  paused : bool;
  lastClaim : gmap Z Z;           (* a missing key reads as 0 *)
  balance : Z                     (* address(this).balance *)
}.

(** [msg.sender] and [block.timestamp] *)
Record Msg := mkMsg {
  sender : Z;
  timestamp : Z
}.

Inductive Log :=
| Claimed (user amount : Z)
| Paused (status : bool)
| OwnerChanged (newOwner : Z)
| ClaimAmountUpdated (newAmount : Z)
| CooldownUpdated (newCooldown : Z).

Inductive Outcome :=
| Done (s : State) (logs : list Log)
| Revert (reason : string)
| Panic (code : Z).

Inductive Call :=
| Claim
| AdminClaimFor (recipient : Z)
| SetClaimAmount (newAmount : Z)
| SetCooldown (newCooldown : Z)
| SetPaused (status : bool)
| TransferOwnership (newOwner : Z)
| Withdraw (amount : Z)
| Receive (value : Z).

(** [lastClaim[a]] *)
Definition last (s : State) (a : Z) : Z := default 0 (lastClaim s !! a).

Definition require (cond : bool) (reason : string) (k : Outcome) : Outcome :=
  if cond then k else Revert reason.

Definition with_balance (s : State) (b : Z) : State :=
  mkState (self s) (owner s) (claimAmount s) (cooldown s) (paused s) (lastClaim s) b.

(** [(bool sent, ) = to.call{value: amount}(...)]: the state after the
    transfer when [sent], [None] otherwise. The faucet's own [receive]
    accepts everything. *)
Definition send (accepts : Z -> bool) (s : State) (to amount : Z) : option State :=
  if balance s <? amount then None
  else if to =? self s then Some s
  else if accepts to then Some (with_balance s (balance s - amount))
  else None.

(** The body shared by [claim] (for [msg.sender]) and [adminClaimFor]. *)
Definition pay (accepts : Z -> bool) (s : State) (m : Msg) (user : Z) : Outcome :=
  if timestamp m <? last s user then Panic 17
  else
  require (timestamp m - last s user >=? cooldown s) "Wait before next claim"
  (require (balance s >=? claimAmount s) "Faucet empty"
  (let s1 := mkState (self s) (owner s) (claimAmount s) (cooldown s) (paused s)
                     (<[user := timestamp m]> (lastClaim s)) (balance s) in
   match send accepts s1 user (claimAmount s1) with
   | Some s2 => Done s2 [Claimed user (claimAmount s1)]
   | None => Revert "Transfer failed"
   end)).

Definition onlyOwner (s : State) (m : Msg) (k : Outcome) : Outcome :=
  require (sender m =? owner s) "Not owner" k.

Definition notPaused (s : State) (k : Outcome) : Outcome :=
  require (negb (paused s)) "Faucet paused" k.

Definition constructor (this : Z) (m : Msg) (value _claimAmount _cooldown : Z)
  : Outcome :=
  require (_claimAmount >? 0) "Invalid amount"
  (require (_cooldown >? 0) "Invalid cooldown"
  (Done (mkState this (sender m) _claimAmount _cooldown false ∅ value) [])).

Definition exec (accepts : Z -> bool) (s : State) (m : Msg) (c : Call) : Outcome :=
  match c with
  | Claim => notPaused s (pay accepts s m (sender m))
  | AdminClaimFor recipient =>
      onlyOwner s m (notPaused s
        (require (negb (recipient =? 0)) "Invalid recipient"
           (pay accepts s m recipient)))
  | SetClaimAmount newAmount =>
      onlyOwner s m
        (require (newAmount >? 0) "Invalid amount"
           (Done (mkState (self s) (owner s) newAmount (cooldown s) (paused s)
                          (lastClaim s) (balance s))
                 [ClaimAmountUpdated newAmount]))
  | SetCooldown newCooldown =>
      onlyOwner s m
        (require (newCooldown >? 0) "Invalid cooldown"
           (Done (mkState (self s) (owner s) (claimAmount s) newCooldown (paused s)
                          (lastClaim s) (balance s))
                 [CooldownUpdated newCooldown]))
  | SetPaused status =>
      onlyOwner s m
        (Done (mkState (self s) (owner s) (claimAmount s) (cooldown s) status
                       (lastClaim s) (balance s))
              [Paused status])
  | TransferOwnership newOwner =>
      onlyOwner s m
        (require (negb (newOwner =? 0)) "Invalid"
           (Done (mkState (self s) newOwner (claimAmount s) (cooldown s) (paused s)
                          (lastClaim s) (balance s))
                 [OwnerChanged newOwner]))
  | Withdraw amount =>
      onlyOwner s m
        match send accepts s (owner s) amount with
        | Some s' => Done s' []
        | None => Revert "Withdraw failed"
        end
  | Receive value => Done (with_balance s (balance s + value)) []
  end.

(** What the contract keeps true: positive parameters, an owner, a
    balance that is not negative, and no claim recorded after [now]. *)
Definition sound (s : State) (now : Z) : Prop :=
  0 < claimAmount s /\ 0 < cooldown s /\ owner s <> 0 /\ 0 <= balance s
  /\ 0 <= now
  /\ forall a t, lastClaim s !! a = Some t -> 0 <= t <= now.

(** The arguments of a call are unsigned. *)
Definition unsigned (c : Call) : Prop :=
  match c with
  | Withdraw amount => 0 <= amount
  | Receive value => 0 <= value
  | _ => True
  end.

(** The call changes what only the owner may change. *)
Definition privileged (c : Call) : bool :=
  match c with
  | Claim | Receive _ => false
  | _ => true
  end.

(** The address a call pays, if it is one of the two claims. *)
Definition beneficiary (m : Msg) (c : Call) : option Z :=
  match c with
  | Claim => Some (sender m)
  | AdminClaimFor recipient => Some recipient
  | _ => None
  end.

(** A transaction: a call that does not return leaves the state as it was. *)
Definition step (accepts : Z -> bool) (s : State) (tx : Msg * Call)
  : State * list Log :=
  match exec accepts s (fst tx) (snd tx) with
  | Done s' logs => (s', logs)
  | _ => (s, [])
  end.

Definition is_claimed_by (user : Z) (l : Log) : bool :=
  match l with Claimed u _ => u =? user | _ => false end.

(** The payouts to [user] over a sequence of transactions: the time of
    each and the cooldown in force when it was made. *)
Fixpoint payouts (accepts : Z -> bool) (user : Z) (s : State)
    (txs : list (Msg * Call)) : list (Z * Z) :=
  match txs with
  | [] => []
  | tx :: rest =>
      (if existsb (is_claimed_by user) (snd (step accepts s tx))
       then [(timestamp (fst tx), cooldown s)] else [])
      ++ payouts accepts user (fst (step accepts s tx)) rest
  end.

(** Each payout comes at least its cooldown after the one before. *)
Fixpoint spaced (prev : Z) (l : list (Z * Z)) : Prop :=
  match l with
  | [] => True
  | (t, cd) :: rest => cd <= t - prev /\ spaced t rest
  end.

(** The settings of the contract. *)
Definition settings (s : State) : Z * Z * Z * bool :=
  (owner s, claimAmount s, cooldown s, paused s).

End NativeFaucet.

(** ** The earlier servers of [server.js]

    [server.js] holds two earlier versions of the server, each with its
    own tables and its own [/claim] route and neither with a captcha or a
    lock. *)

(** [table[key]] where [key] was itself read from a table: [undefined]
    is the key ["undefined"], and an inherited member is turned into a
    string that names no property of the tables. *)
Definition lookup_at (table : list (string * option string)) (key : Looked)
  : Looked :=
  match key with
  | LString s => lookup table (Some s)
  | LUndefined => lookup table None
  | LBuiltin _ => LUndefined
  end.

Module Aliased.

Definition NET_ALIASES : list (string * option string) :=
  [ ("polygon", Some "amoy"); ("amoy", Some "amoy");
    ("avax", Some "fuji"); ("fuji", Some "fuji") ].

Definition FAUCET_CONTRACTS : list (string * option string) :=
  [ ("fuji", Some "0xB5685a68C3de062918C9C31d111922E36fe71BE3");
    ("amoy", Some "0x5aA6275BC3CB6e219Deb8e1bC07747FF5cDeF1B9") ].

Section Handler.

Variable env : Env.

Definition RPC : list (string * option string) :=
  [ ("fuji", env_AVAX_RPC env);
    ("amoy", env_POLYGON_RPC env) ].

Definition claim (req : Request) : M Response :=
  try_catch
    (let network := body_network req in
     let recipient := body_recipient req in
     let key := lookup NET_ALIASES network in
     let rpcUrl := lookup_at RPC key in
     let contractAddress := lookup_at FAUCET_CONTRACTS key in
     if negb (truthy_looked key) || negb (truthy_looked rpcUrl)
        || negb (truthy_looked contractAddress) then
       res_send 400 [("success", JBool false); ("error", JStr "Invalid network")]
     else
     if negb (ethers_isAddress env recipient) then
       res_send 400 [("success", JBool false);
                     ("error", JStr "Invalid recipient address")]
     else
     let faucet := contract_at env rpcUrl contractAddress in
     claimAmt <- rpc rpcUrl contractAddress CallClaimAmount (claimAmount faucet) ;;
     try_catch
       (tx <- rpc rpcUrl contractAddress (CallAdminClaimFor recipient)
                (adminClaimFor faucet recipient) ;;
        _ <- rpc rpcUrl contractAddress (CallTxWait (tx_hash tx)) (tx_wait tx) ;;
        res_send 200 [("success", JBool true); ("txHash", JStr (tx_hash tx))])
       (fun e =>
          if str_is (err_code e) "CALL_EXCEPTION"
             && str_is (err_reason e) "Wait before next claim" then
            last <- rpc rpcUrl contractAddress (CallLastClaim recipient)
                      (lastClaim faucet recipient) ;;
            cooldown <- rpc rpcUrl contractAddress CallCooldown (cooldown faucet) ;;
            ms <- Date_now env ;;
            let now := ms / 1000 in
            let waitSeconds := Number_of_BigInt (last + cooldown - now) in
            res_send 400 [("success", JBool false);
                          ("error", JStr "Wait before next claim");
                          ("wait", JNum (if waitSeconds >? 0 then waitSeconds else 0))]
          else
            throw e))
    (fun e => res_send 500 [("success", JBool false); ("error", JStr (err_message e))]).

End Handler.

End Aliased.

Module Unguarded.

Definition FAUCET_CONTRACTS : list (string * option string) :=
  [ ("amoy", Some "0x5aA6275BC3CB6e219Deb8e1bC07747FF5cDeF1B9");
    ("avax", Some "0xB5685a68C3de062918C9C31d111922E36fe71BE3");
    ("sepolia", Some "0x9c33b5Ad90570262A4b49abAFf47e4Ef7DeC3c08");
    ("base", Some "0x9c33b5Ad90570262A4b49abAFf47e4Ef7DeC3c08") ].

Section Handler.

Variable env : Env.

Definition claim (req : Request) : M Response :=
  try_catch
    (let network := body_network req in
     let recipient := body_recipient req in
     let rpcUrl := lookup (RPC env) network in
     let contractAddress := lookup FAUCET_CONTRACTS network in
     if negb (truthy_looked rpcUrl) || negb (truthy_looked contractAddress) then
       res_send 400 [("success", JBool false); ("error", JStr "Invalid network")]
     else
     if negb (ethers_isAddress env recipient) then
       res_send 400 [("success", JBool false);
                     ("error", JStr "Invalid recipient address")]
     else
     let faucet := contract_at env rpcUrl contractAddress in
     claimAmt <- rpc rpcUrl contractAddress CallClaimAmount (claimAmount faucet) ;;
     try_catch
       (tx <- rpc rpcUrl contractAddress (CallAdminClaimFor recipient)
                (adminClaimFor faucet recipient) ;;
        _ <- rpc rpcUrl contractAddress (CallTxWait (tx_hash tx)) (tx_wait tx) ;;
        res_send 200 [("success", JBool true); ("txHash", JStr (tx_hash tx))])
       (fun e =>
          if str_is (err_code e) "CALL_EXCEPTION"
             && str_is (err_reason e) "Wait before next claim" then
            last <- rpc rpcUrl contractAddress (CallLastClaim recipient)
                      (lastClaim faucet recipient) ;;
            cooldown <- rpc rpcUrl contractAddress CallCooldown (cooldown faucet) ;;
            ms <- Date_now env ;;
            let now := ms / 1000 in
            let waitSeconds := Number_of_BigInt (last + cooldown - now) in
            res_send 400 [("success", JBool false);
                          ("error", JStr "Wait before next claim");
                          ("wait", JNum (if waitSeconds >? 0 then waitSeconds else 0))]
          else
            throw e))
    (fun e => res_send 500 [("success", JBool false); ("error", JStr (err_message e))]).

End Handler.

End Unguarded.

(** The request names one of the networks of [NET_ALIASES]. *)
Definition names_alias (req : Request) : bool :=
  existsb (String.eqb (template (body_network req)))
          ["polygon"; "amoy"; "avax"; "fuji"].

(** A route answers from the chain alone: whatever the files hold, the
    response is the same, the files are left as they were and nothing but
    the chain is called. *)
Definition answers_from_chain (route : Request -> M Response) : Prop :=
  forall req w,
    (forall w0, ticks w0 = ticks w -> fst (route req w0) = fst (route req w))
    /\ files (snd (route req w)) = files w
    /\ (exists d, trace (snd (route req w)) = trace w ++ d
                  /\ forallb is_chain_call d = true)
    /\ exists resp, fst (route req w) = Ok resp
         /\ (status resp = 200 \/ status resp = 400 \/ status resp = 500).

(** A deployment of the contract to run it on. *)
Module Deployment.

Import NativeFaucet.

Definition deployer : Z := 7.

Definition user : Z := 42.

(** Every address takes what it is sent. *)
Definition anyone (a : Z) : bool := true.

Definition genesis : Msg := mkMsg deployer 1700000000.

(** The faucet as deployed with 5 coins, paying 0.01 once a day. *)
Definition deployed : State :=
  mkState 1000 deployer 10000000000000000 86400 false ∅ 5000000000000000000.

(** The faucet after its first payout, to [user]. *)
Definition paid : State :=
  mkState 1000 deployer 10000000000000000 86400 false
          {[ user := 1700000100 ]} 4990000000000000000.

End Deployment.

(** Another wallet asking from the address of [Demo.good]. *)
Definition second_wallet : Request :=
  Demo.request (Some "sepolia") (Some "0x00000000000000000000000000000000000000AA")
               (Some "good-token").

(** A request naming a member of [Object.prototype] as its network. *)
Definition inherited_network : Request :=
  Demo.request (Some "constructor") (Some Demo.address) (Some "good-token").

(** * Properties *)

(** ** Runs of the primitives *)

Section Runs.

Context (env : Env).

Lemma bind_ok {A B} (m : M A) (k : A -> M B) w a w' :
  m w = (Ok a, w') -> bind m k w = k a w'.
Proof. intros H. unfold bind. now rewrite H. Qed.




Lemma events_since_app w w' d :
  trace w' = trace w ++ d -> events_since w w' = d.
Proof.
  intros H. unfold events_since. rewrite H.
  now rewrite drop_app_length.
Qed.

Lemma ensureLockDir_run w :
  ensureLockDir env w = (Ok tt, logged [EvMkdir (LOCK_DIR env)] w).
Proof.
  unfold ensureLockDir, try_catch, fs_mkdir, bind, emit, throw, ret, logged.
  cbn. now destruct (fs_denied env OpMkdir (LOCK_DIR env)).
Qed.

Lemma clear_lock_run p w :
  clear_lock env p w = (Ok tt, after_clear env p w).
Proof.
  unfold clear_lock, after_clear, try_catch, fs_unlink, bind, emit, ret. cbn.
  destruct (fs_denied env OpUnlink p); [reflexivity|].
  destruct (files w !! p) eqn:Hp; [reflexivity|].
  now rewrite delete_id.
Qed.

Lemma write_lock_run p ttl meta w :
  write_lock env p ttl meta w = (Ok tt, after_write env p ttl meta w).
Proof.
  unfold write_lock. rewrite (bind_ok _ _ _ _ _ (ensureLockDir_run w)).
  unfold after_write, written, try_catch, fs_writeFile, Date_now, bind, emit, ret,
    logged.
  cbn. rewrite <- app_assoc. cbn.
  now destruct (fs_denied env OpWrite p).
Qed.

Lemma read_lock_run p w :
  read_lock env p w = (Ok (remaining env w p), after_read env p w).
Proof.
  unfold read_lock. rewrite (bind_ok _ _ _ _ _ (ensureLockDir_run w)).
  unfold remaining, after_read, stored, expiry, try_catch, fs_readFile, fs_unlink,
    JSON_parse_or_throw, Date_now, bind, emit, throw, ret, logged.
  cbn. rewrite <- !app_assoc. cbn.
  destruct (fs_denied env OpRead p); [reflexivity|].
  destruct (files w !! p) as [raw|] eqn:Hp; [|reflexivity].
  destruct (JSON_parse env raw) as [data|]; [|reflexivity]. cbn.
  destruct (number_above _ _); [reflexivity|]. cbn.
  rewrite <- !app_assoc. cbn.
  destruct (fs_denied env OpUnlink p); [reflexivity|].
  now rewrite Hp.
Qed.

Lemma rpc_run {A} u a c (r : Result A) w :
  rpc u a c r w = (r, logged [EvChain u a c] w).
Proof. reflexivity. Qed.

Lemma getIpCooldown_eq ip network :
  getIpCooldown env ip network = read_lock env (lockPathFor env ip network).
Proof. reflexivity. Qed.

Lemma getIpPending_eq ip network :
  getIpPending env ip network = read_lock env (pendingPathFor env ip network).
Proof. reflexivity. Qed.

Lemma setIpCooldown_eq ip network meta :
  setIpCooldown env ip network meta
  = write_lock env (lockPathFor env ip network) COOLDOWN_MS meta.
Proof. reflexivity. Qed.

Lemma setIpPending_eq ip network meta :
  setIpPending env ip network meta
  = write_lock env (pendingPathFor env ip network) PENDING_MS meta.
Proof. reflexivity. Qed.

Lemma clearIpPending_eq ip network :
  clearIpPending env ip network = clear_lock env (pendingPathFor env ip network).
Proof. reflexivity. Qed.

Lemma verifyHCaptcha_run token remoteip w :
  verifyHCaptcha env token remoteip w
  = (Ok (verdict env token remoteip), after_verify env token remoteip w).
Proof.
  unfold verifyHCaptcha, verdict, after_verify.
  destruct (truthy_string (HCAPTCHA_SECRET env)); [|reflexivity].
  cbn [negb andb].
  replace (if truthy_string remoteip
           then ([("secret", HCAPTCHA_SECRET env)] ++ [("response", or_empty token)])
                ++ [("remoteip", remoteip)]
           else [("secret", HCAPTCHA_SECRET env)] ++ [("response", or_empty token)])
    with (siteverify_params env token remoteip)
    by (unfold siteverify_params; now destruct (truthy_string remoteip)).
  unfold try_catch, fetch, bind, emit, lift, ret, reports_success, logged,
    siteverify_url.
  cbn.
  destruct (http_post env _ _) as [resp|e]; [|reflexivity].
  destruct (resp_json resp) as [data|e]; [|reflexivity].
  now destruct (get data "success").
Qed.

Lemma lock_pending_paths_differ ip network :
  lockPathFor env ip network <> pendingPathFor env ip network.
Proof.
  unfold lockPathFor, pendingPathFor, path_join. intros H.
  do 3 apply String.app_inj in H. discriminate H.
Qed.

End Runs.

(** ** Runs of the route *)

Section Route.

Context (env : Env).

Lemma gates_run req w :
  gates env req w
  = if negb (truthy_str (body_captchaToken req)) then (Ok (Some invalid_captcha), w)
    else if negb (verdict env (body_captchaToken req) (getClientIp env req)) then
      (Ok (Some invalid_captcha), verified env req w)
    else if remaining env (verified env req w) (lock_path env req) >? 0 then
      (Ok (Some (wait_response 429
         (Math_ceil_div (remaining env (verified env req w) (lock_path env req)) 1000))),
       cooldown_checked env req w)
    else if remaining env (cooldown_checked env req w) (pending_path env req) >? 0 then
      (Ok (Some (wait_response 429
         (Math_ceil_div (remaining env (cooldown_checked env req w)
                                   (pending_path env req)) 1000))),
       pending_checked env req w)
    else if negb (truthy_looked (rpcUrl_of env req))
            || negb (truthy_looked (contract_of req)) then
      (Ok (Some invalid_network), pending_set env req w)
    else if negb (ethers_isAddress env (body_recipient req)) then
      (Ok (Some invalid_recipient), pending_set env req w)
    else match claimAmount (faucet_of env req) with
         | Ok _ => (Ok None, quoted env req w)
         | Throw e => (Throw e, quoted env req w)
         end.
Proof.
  unfold gates. cbv zeta.
  destruct (truthy_str (body_captchaToken req)); cbn [negb]; [|reflexivity].
  unfold bind at 1. rewrite verifyHCaptcha_run. cbv beta iota.
  destruct (verdict env _ _); cbn [negb]; [|reflexivity].
  unfold bind at 1. rewrite getIpCooldown_eq, read_lock_run. cbv beta iota.
  fold (lock_path env req). fold (verified env req w).
  destruct (remaining env _ _ >? 0); [reflexivity|].
  unfold bind at 1. rewrite getIpPending_eq, read_lock_run. cbv beta iota.
  fold (pending_path env req). fold (cooldown_checked env req w).
  destruct (remaining env _ _ >? 0); [reflexivity|].
  unfold bind at 1. rewrite setIpPending_eq, write_lock_run. cbv beta iota.
  fold (pending_path env req). fold (pending_meta req).
  fold (pending_checked env req w). fold (pending_set env req w).
  fold (rpcUrl_of env req). fold (contract_of req).
  destruct (negb _ || negb _); [reflexivity|].
  destruct (negb (ethers_isAddress env _)); [reflexivity|].
  unfold bind. rewrite rpc_run. fold (faucet_of env req).
  fold (chain env req CallClaimAmount). fold (quoted env req w).
  now destruct (claimAmount (faucet_of env req)).
Qed.

Lemma claim_eq req w :
  claim env req w
  = match gates env req w with
    | (Ok (Some resp), w') => (Ok resp, w')
    | (Ok None, w') =>
        match settle env req w' with
        | (Ok resp, w'') => (Ok resp, w'')
        | (Throw e, w'') => (Ok (failure_response e), w'')
        end
    | (Throw e, w') => (Ok (failure_response e), w')
    end.
Proof.
  unfold claim, gates. cbv zeta.
  unfold try_catch at 1. unfold bind, res_send, ret.
  destruct (truthy_str (body_captchaToken req)); cbn [negb]; [|reflexivity].
  destruct (verifyHCaptcha env _ _ w) as [[[|]|e] w1]; cbn [negb];
    [|reflexivity|reflexivity].
  destruct (getIpCooldown env _ _ w1) as [[r|e] w2]; [|reflexivity].
  destruct (r >? 0); [reflexivity|].
  destruct (getIpPending env _ _ w2) as [[r'|e] w3]; [|reflexivity].
  destruct (r' >? 0); [reflexivity|].
  destruct (setIpPending env _ _ _ w3) as [[[]|e] w4]; [|reflexivity].
  destruct (negb _ || negb _); [reflexivity|].
  destruct (negb (ethers_isAddress env _)); [reflexivity|].
  destruct (rpc _ _ CallClaimAmount _ w4) as [[amt|e] w5]; reflexivity.
Qed.

Lemma logged_logged a b w : logged a (logged b w) = logged (b ++ a) w.
Proof. unfold logged. cbn. now rewrite app_assoc. Qed.

Lemma max_0 (x : Z) : (if x >? 0 then x else 0) = Z.max 0 x.
Proof. destruct (Z.gtb_spec x 0); lia. Qed.

Lemma settle_run req w :
  settle env req w
  = let recipient := body_recipient req in
    let w1 := logged (dispatch_events env req) w in
    match dispatch (faucet_of env req) recipient with
    | Ok hash => (Ok (success_response hash), promoted env req hash w)
    | Throw e =>
        if is_wait_rejection e then
          match lastClaim (faucet_of env req) recipient with
          | Throw e' => (Throw e', logged [chain env req (CallLastClaim recipient)] w1)
          | Ok last =>
              match cooldown (faucet_of env req) with
              | Throw e' =>
                  (Throw e', logged [chain env req (CallLastClaim recipient);
                                     chain env req CallCooldown] w1)
              | Ok cd =>
                  (Ok (wait_response 400
                         (Z.max 0 (Number_of_BigInt
                                     (last + cd - clock env (ticks w) / 1000)))),
                   refused env req w)
              end
          end
        else (Throw e, after_clear env (pending_path env req) w1)
    end.
Proof.
  unfold settle, dispatch, promoted, refused, is_wait_rejection.
  unfold dispatch_events, chain. cbv zeta.
  fold (rpcUrl_of env req). fold (contract_of req). fold (faucet_of env req).
  unfold try_catch at 1. unfold bind at 1. rewrite rpc_run.
  destruct (adminClaimFor (faucet_of env req) (body_recipient req)) as [tx|e].
  - unfold bind at 1. rewrite rpc_run.
    destruct (tx_wait tx) as [[]|e].
    + unfold bind at 1. rewrite setIpCooldown_eq, write_lock_run.
      unfold bind at 1. rewrite clearIpPending_eq, clear_lock_run.
      rewrite logged_logged. reflexivity.
    + rewrite logged_logged. cbn [app].
      destruct (str_is _ _ && str_is _ _).
      * unfold bind at 1. rewrite rpc_run.
        destruct (lastClaim _ _) as [last|e']; [|reflexivity].
        unfold bind at 1. rewrite rpc_run.
        destruct (cooldown _) as [cd|e']; [|now rewrite logged_logged].
        unfold bind. rewrite clearIpPending_eq. cbn [Date_now].
        unfold Date_now. rewrite clear_lock_run. unfold res_send, ret.
        rewrite max_0, logged_logged. reflexivity.
      * unfold bind. rewrite clearIpPending_eq, clear_lock_run. reflexivity.
  - destruct (str_is _ _ && str_is _ _).
    * unfold bind at 1. rewrite rpc_run.
      destruct (lastClaim _ _) as [last|e']; [|reflexivity].
      unfold bind at 1. rewrite rpc_run.
      destruct (cooldown _) as [cd|e']; [|now rewrite logged_logged].
      unfold bind. rewrite clearIpPending_eq.
      unfold Date_now. rewrite clear_lock_run. unfold res_send, ret.
      rewrite max_0, logged_logged. reflexivity.
    * unfold bind. rewrite clearIpPending_eq, clear_lock_run. reflexivity.
Qed.

End Route.

(** ** The stages of the route *)

Section Stages.

Context (env : Env).

Lemma grows_refl w : grows_quietly w w.
Proof. exists []. split; [now rewrite app_nil_r | constructor]. Qed.

Lemma grows_trans w1 w2 w3 :
  grows_quietly w1 w2 -> grows_quietly w2 w3 -> grows_quietly w1 w3.
Proof.
  intros (d1 & H1 & Q1) (d2 & H2 & Q2). exists (d1 ++ d2). split.
  - now rewrite H2, H1, app_assoc.
  - now apply Forall_app.
Qed.

Lemma grows_events w w' : grows_quietly w w' -> quiet (events_since w w').
Proof. intros (d & H & Q). now rewrite (events_since_app _ _ _ H). Qed.

Lemma grows_verified req w : grows_quietly w (verified env req w).
Proof.
  unfold verified, after_verify.
  destruct (truthy_string (HCAPTCHA_SECRET env)); [|apply grows_refl].
  eexists. split; [reflexivity|]. repeat constructor.
Qed.

Lemma grows_after_read p w : grows_quietly w (after_read env p w).
Proof.
  unfold after_read. destruct (stored env w p) as [data|].
  - destruct (number_above _ _); (eexists; split; [reflexivity|]; repeat constructor).
  - eexists. split; [reflexivity|]. repeat constructor.
Qed.

Lemma grows_after_write p ttl meta w : grows_quietly w (after_write env p ttl meta w).
Proof. eexists. split; [reflexivity|]. repeat constructor. Qed.


Lemma grows_cooldown_checked req w : grows_quietly w (cooldown_checked env req w).
Proof. eapply grows_trans; [apply grows_verified | apply grows_after_read]. Qed.

Lemma grows_pending_checked req w : grows_quietly w (pending_checked env req w).
Proof. eapply grows_trans; [apply grows_cooldown_checked | apply grows_after_read]. Qed.

Lemma grows_pending_set req w : grows_quietly w (pending_set env req w).
Proof. eapply grows_trans; [apply grows_pending_checked | apply grows_after_write]. Qed.

Lemma files_verified req w : files (verified env req w) = files w.
Proof. unfold verified, after_verify. now destruct (truthy_string _). Qed.

Lemma ticks_verified req w : ticks (verified env req w) = ticks w.
Proof. unfold verified, after_verify. now destruct (truthy_string _). Qed.

Lemma stored_same w w' p : files w' !! p = files w !! p -> stored env w' p = stored env w p.
Proof. intros H. unfold stored. now rewrite H. Qed.

Lemma stored_verified req w p : stored env (verified env req w) p = stored env w p.
Proof. apply stored_same. now rewrite files_verified. Qed.

Lemma remaining_verified req w p :
  remaining env (verified env req w) p = remaining env w p.
Proof. unfold remaining. now rewrite stored_verified, ticks_verified. Qed.

Lemma files_after_read_other p q w :
  p <> q -> files (after_read env p w) !! q = files w !! q.
Proof.
  intros Hne. unfold after_read. destruct (stored env w p) as [data|]; [|reflexivity].
  destruct (number_above _ _); [reflexivity|]. cbn.
  destruct (fs_denied env OpUnlink p); [reflexivity|].
  now apply lookup_delete_ne.
Qed.

Lemma ticks_after_read p w :
  ticks (after_read env p w) = ticks w \/ ticks (after_read env p w) = S (ticks w).
Proof.
  unfold after_read. destruct (stored env w p) as [data|]; [|now left].
  destruct (number_above _ _); now right.
Qed.


Lemma remaining_expires_at w p e :
  expires_at env w p e ->
  remaining env w p = Z.max 0 (e - clock env (ticks w)).
Proof.
  intros (data & Hs & He). unfold remaining. rewrite Hs. cbv zeta. rewrite He. cbn.
  destruct (Z.ltb_spec (clock env (ticks w)) e); lia.
Qed.

Lemma remaining_corrupt w p : corrupt env w p -> remaining env w p = 0.
Proof.
  unfold remaining, stored.
  intros [Hd | [(raw & Hf & Hp) | (data & Hs & Hn)]].
  - now rewrite Hd.
  - destruct (fs_denied env OpRead p); [reflexivity|]. now rewrite Hf, Hp.
  - unfold stored in Hs. rewrite Hs. cbv zeta.
    destruct (expiry data) eqn:He; try reflexivity. now destruct (Hn n).
Qed.

(** [Math_ceil_div a b] is the least integer [c] with [a <= b * c]. *)
Lemma Math_ceil_div_spec a b :
  0 < b -> b * (Math_ceil_div a b - 1) < a <= b * Math_ceil_div a b.
Proof.
  intros Hb. unfold Math_ceil_div.
  pose proof (Z.div_mod (- a) b ltac:(lia)) as Hdm.
  pose proof (Z.mod_pos_bound (- a) b Hb) as Hm.
  nia.
Qed.

Lemma ceil_div_pos r : 0 < r -> 0 < Math_ceil_div r 1000.
Proof.
  intros H. unfold Math_ceil_div.
  assert (- r / 1000 < 0) by (apply Z.div_lt_upper_bound; lia). lia.
Qed.

End Stages.

(** ** The lock store *)

Section LockStore.

Context (env : Env).

Lemma read_lock_honours_expiry p w e :
  expires_at env w p e -> read_honours_expiry env w p e (read_lock env p w).
Proof.
  intros (data & Hs & He). rewrite read_lock_run.
  unfold read_honours_expiry, remaining, after_read. cbn [fst snd].
  rewrite Hs. cbv zeta. rewrite He. cbn [number_above as_number]. split; intros Hnow.
  - destruct (Z.ltb_spec (clock env (ticks w)) e); [lia|]. split; [reflexivity|]. split.
    + erewrite events_since_app by reflexivity. cbn. auto.
    + intros Hd. cbn. rewrite Hd. apply lookup_delete_eq.
  - destruct (Z.ltb_spec (clock env (ticks w)) e); [|lia]. now split.
Qed.

(** C9. A stored lock record whose [expiresAt] is at or before the
    clock reading of the read makes [getIpCooldown] and [getIpPending]
    answer 0 and unlink the backing file (the file is gone whenever the
    operating system lets the unlink through); a record with a later
    [expiresAt] makes them answer [expiresAt - now]. *)
Theorem lock_read_honours_expiry ip network w e :
  (expires_at env w (lockPathFor env ip network) e ->
     read_honours_expiry env w (lockPathFor env ip network) e
       (getIpCooldown env ip network w))
  /\ (expires_at env w (pendingPathFor env ip network) e ->
        read_honours_expiry env w (pendingPathFor env ip network) e
          (getIpPending env ip network w)).
Proof.
  split; intros H.
  - rewrite getIpCooldown_eq. now apply read_lock_honours_expiry.
  - rewrite getIpPending_eq. now apply read_lock_honours_expiry.
Qed.


Lemma settle_never_429 req w resp w' :
  settle env req w = (Ok resp, w') -> status resp <> 429.
Proof.
  rewrite settle_run. cbv zeta.
  destruct (dispatch _ _) as [hash|e].
  - intros [= <- _]. discriminate.
  - destruct (is_wait_rejection e); [|discriminate].
    destruct (lastClaim _ _); [|discriminate].
    destruct (cooldown _); [|discriminate].
    intros [= <- _]. discriminate.
Qed.

Lemma claim_total req w : exists resp w', claim env req w = (Ok resp, w').
Proof.
  rewrite claim_eq. destruct (gates env req w) as [[[resp|]|e] w1]; eauto.
  destruct (settle env req w1) as [[resp|e] w2]; eauto.
Qed.

End LockStore.

(** ** The captcha verifier *)

Section Captcha.

Context (env : Env).

(** C8, amended. [verifyHCaptcha] always returns a boolean and never
    throws. It returns [false] when the secret is unconfigured, when
    [fetch] throws, when the body does not parse and when the body
    carries no truthy [success]; with a configured secret and a body
    reporting success it returns [true], whatever the token: a missing
    token is posted as an empty [response] field and the verdict is the
    upstream's. *)
Theorem verifyHCaptcha_fails_closed token remoteip w :
  let post := http_post env siteverify_url (siteverify_params env token remoteip) in
  let out := fst (verifyHCaptcha env token remoteip w) in
  (exists b, out = Ok b)
  /\ (HCAPTCHA_SECRET env = EmptyString -> out = Ok false)
  /\ (forall e, post = Throw e -> out = Ok false)
  /\ (forall resp e, post = Ok resp -> resp_json resp = Throw e -> out = Ok false)
  /\ (forall resp data,
        post = Ok resp -> resp_json resp = Ok data ->
        truthy (opt_get data "success") = false -> out = Ok false)
  /\ (forall resp data,
        HCAPTCHA_SECRET env <> EmptyString ->
        post = Ok resp -> resp_json resp = Ok data ->
        truthy (opt_get data "success") = true -> out = Ok true).
Proof.
  cbv zeta. rewrite verifyHCaptcha_run. cbn [fst]. unfold verdict, reports_success.
  split; [eauto|]. split; [|split; [|split; [|split]]].
  - intros ->. reflexivity.
  - intros e ->. now rewrite andb_false_r.
  - intros resp e -> ->. now rewrite andb_false_r.
  - intros resp data -> -> Hs.
    destruct data; cbn in *; rewrite ?Hs; now rewrite andb_false_r.
  - intros resp data Hne -> -> Hs.
    destruct (HCAPTCHA_SECRET env); [congruence|].
    destruct data; cbn in *; try discriminate; now rewrite Hs.
Qed.

End Captcha.

(** ** The route *)

Section Claim.

Context (env : Env).

(** C7. A request whose body has no [captchaToken] is answered 400
    "Invalid captcha" and leaves the world as it was: nothing was read
    from or written to the lock store, and no call went to the chain
    (the trace gained no event). *)
Theorem claim_without_token_is_invalid_captcha req w :
  body_captchaToken req = None ->
  claim env req w
  = (Ok (mkResponse 400 [("success", JBool false); ("error", JStr "Invalid captcha")]),
     w).
Proof.
  intros H. rewrite claim_eq, gates_run. now rewrite H.
Qed.

Lemma passes_captcha_verdict req w :
  passes_captcha env req w ->
  truthy_str (body_captchaToken req) = true
  /\ verdict env (body_captchaToken req) (getClientIp env req) = true.
Proof.
  intros [Ht Hv]. rewrite verifyHCaptcha_run in Hv. cbn in Hv. split; congruence.
Qed.

Lemma gates_verified req w :
  passes_captcha env req w ->
  gates env req w
  = if remaining env w (lock_path env req) >? 0 then
      (Ok (Some (wait_response 429
         (Math_ceil_div (remaining env w (lock_path env req)) 1000))),
       cooldown_checked env req w)
    else if remaining env (cooldown_checked env req w) (pending_path env req) >? 0 then
      (Ok (Some (wait_response 429
         (Math_ceil_div (remaining env (cooldown_checked env req w)
                                   (pending_path env req)) 1000))),
       pending_checked env req w)
    else if negb (truthy_looked (rpcUrl_of env req))
            || negb (truthy_looked (contract_of req)) then
      (Ok (Some invalid_network), pending_set env req w)
    else if negb (ethers_isAddress env (body_recipient req)) then
      (Ok (Some invalid_recipient), pending_set env req w)
    else match claimAmount (faucet_of env req) with
         | Ok _ => (Ok None, quoted env req w)
         | Throw e => (Throw e, quoted env req w)
         end.
Proof.
  intros H. destruct (passes_captcha_verdict _ _ H) as [Ht Hv].
  rewrite gates_run, Ht, Hv, remaining_verified. reflexivity.
Qed.

(** C6, amended. A request that passes the captcha gate while the
    cooldown record of its client and network has [R = e - now > 0]
    milliseconds left is answered 429 "Wait before next claim" with
    [wait = ceil(R / 1000)], and no call goes to the chain. *)
Theorem cooldown_lock_rejects_verified_request req w e :
  passes_captcha env req w ->
  expires_at env w (lock_path env req) e ->
  0 < e - clock env (ticks w) ->
  blocked_by_cooldown env req w e.
Proof.
  intros Hc He Hpos. exists (cooldown_checked env req w). split.
  - rewrite claim_eq, (gates_verified _ _ Hc).
    rewrite (remaining_expires_at env _ _ _ He).
    replace (Z.max 0 (e - clock env (ticks w))) with (e - clock env (ticks w)) by lia.
    destruct (Z.gtb_spec (e - clock env (ticks w)) 0); [reflexivity | lia].
  - apply grows_events, grows_cooldown_checked.
Qed.

Lemma stored_pending_after_cooldown_check req w :
  stored env (cooldown_checked env req w) (pending_path env req)
  = stored env w (pending_path env req).
Proof.
  apply stored_same. unfold cooldown_checked.
  rewrite files_after_read_other by apply lock_pending_paths_differ.
  now rewrite files_verified.
Qed.

Lemma ticks_cooldown_checked req w :
  ticks (cooldown_checked env req w) = ticks w
  \/ ticks (cooldown_checked env req w) = S (ticks w).
Proof.
  unfold cooldown_checked.
  destruct (ticks_after_read env (lock_path env req) (verified env req w)) as [H|H];
    rewrite H, ticks_verified; auto.
Qed.

Lemma remaining_live w p : live env w p -> 0 < remaining env w p.
Proof.
  intros (e & He & H1 & _). rewrite (remaining_expires_at env _ _ _ He). lia.
Qed.

Lemma remaining_live_pending req w :
  live env w (pending_path env req) ->
  0 < remaining env (cooldown_checked env req w) (pending_path env req).
Proof.
  intros (e & (data & Hs & He) & H1 & H2).
  unfold remaining. rewrite stored_pending_after_cooldown_check, Hs. cbv zeta.
  rewrite He. cbn [number_above as_number].
  destruct (ticks_cooldown_checked req w) as [Ht|Ht]; rewrite Ht;
    match goal with |- context [?a <? ?b] => destruct (Z.ltb_spec a b) end; lia.
Qed.

Lemma remaining_lapsed w p : lapsed env w p -> remaining env w p = 0.
Proof.
  intros H. unfold remaining. destruct (stored env w p) as [data|] eqn:Hs; [|reflexivity].
  cbv zeta. destruct (expiry data) eqn:He; try reflexivity. cbn.
  destruct (H n) as [H1 _]; [now exists data|].
  destruct (Z.ltb_spec (clock env (ticks w)) n); [lia | reflexivity].
Qed.

Lemma remaining_lapsed_pending req w :
  lapsed env w (pending_path env req) ->
  remaining env (cooldown_checked env req w) (pending_path env req) = 0.
Proof.
  intros H. unfold remaining. rewrite stored_pending_after_cooldown_check.
  destruct (stored env w _) as [data|] eqn:Hs; [|reflexivity].
  cbv zeta. destruct (expiry data) eqn:He; try reflexivity. cbn.
  destruct (H n) as [H1 H2]; [now exists data|].
  destruct (ticks_cooldown_checked req w) as [Ht|Ht]; rewrite Ht;
    match goal with |- context [?a <? ?b] => destruct (Z.ltb_spec a b) end;
    (lia || reflexivity).
Qed.

Lemma corrupt_lapsed w p : corrupt env w p -> lapsed env w p.
Proof.
  intros Hc e (data & Hs & He). exfalso. unfold stored in Hs.
  destruct Hc as [Hd | [(raw & Hf & Hp) | (data' & Hs' & Hn)]].
  - now rewrite Hd in Hs.
  - destruct (fs_denied env OpRead p); [discriminate|]. rewrite Hf, Hp in Hs.
    discriminate.
  - unfold stored in Hs'. rewrite Hs in Hs'. injection Hs' as <-. now apply (Hn e).
Qed.

(** C10. A lock record that is unreadable, is not JSON or has no
    numeric [expiresAt] makes [getIpCooldown] and [getIpPending] answer
    0; the two readers never throw; the route always answers, and a
    corrupt record never brings the 429 of the lock check: when each of
    the two records is corrupt or lapsed, the answer is not 429. *)
Theorem corrupt_lock_reads_as_absent ip network req w :
  (corrupt env w (lockPathFor env ip network) ->
     fst (getIpCooldown env ip network w) = Ok 0)
  /\ (corrupt env w (pendingPathFor env ip network) ->
        fst (getIpPending env ip network w) = Ok 0)
  /\ (exists r, fst (getIpCooldown env ip network w) = Ok r)
  /\ (exists r, fst (getIpPending env ip network w) = Ok r)
  /\ (exists resp w',
        claim env req w = (Ok resp, w')
        /\ (corrupt env w (lock_path env req) \/ lapsed env w (lock_path env req) ->
            corrupt env w (pending_path env req) \/ lapsed env w (pending_path env req) ->
            status resp <> 429)).
Proof.
  rewrite getIpCooldown_eq, getIpPending_eq, !read_lock_run. cbn [fst].
  split; [|split; [|split; [|split]]]; eauto.
  - intros H. now rewrite remaining_corrupt.
  - intros H. now rewrite remaining_corrupt.
  - destruct (claim_total env req w) as (resp & w' & Hrun).
    exists resp, w'. split; [exact Hrun|]. intros Hl Hp.
    assert (Hl' : lapsed env w (lock_path env req))
      by (destruct Hl; [now apply corrupt_lapsed | assumption]).
    assert (Hp' : lapsed env w (pending_path env req))
      by (destruct Hp; [now apply corrupt_lapsed | assumption]).
    rewrite claim_eq, gates_run in Hrun.
    rewrite remaining_verified, (remaining_lapsed _ _ Hl') in Hrun.
    rewrite (remaining_lapsed_pending _ _ Hp') in Hrun.
    cbn [Z.gtb Z.compare] in Hrun.
    destruct (negb (truthy_str _)); [injection Hrun as <- _; discriminate|].
    destruct (negb (verdict env _ _)); [injection Hrun as <- _; discriminate|].
    destruct (negb _ || negb _); [injection Hrun as <- _; discriminate|].
    destruct (negb (ethers_isAddress env _)); [injection Hrun as <- _; discriminate|].
    destruct (claimAmount _); [|injection Hrun as <- _; discriminate].
    destruct (settle env req _) as [[resp'|e] w2] eqn:Hs.
    + injection Hrun as <- _. eapply settle_never_429, Hs.
    + injection Hrun as <- _. discriminate.
Qed.

(** C3, amended. While a cooldown or pending record of the client for
    the requested network is live, a request for that same network that
    passes the captcha gate is answered 429 "Wait before next claim"
    by the lock check, and no call goes to the chain: [adminClaimFor]
    is not reached a second time. *)
Theorem live_lock_rejects_same_network req w :
  passes_captcha env req w ->
  live env w (lock_path env req) \/ live env w (pending_path env req) ->
  exists wait w',
    claim env req w
    = (Ok (mkResponse 429 [("success", JBool false);
                           ("error", JStr "Wait before next claim");
                           ("wait", JNum wait)]), w')
    /\ 0 < wait
    /\ quiet (events_since w w').
Proof.
  intros Hc Hl. rewrite claim_eq, (gates_verified _ _ Hc).
  destruct (Z.gtb_spec (remaining env w (lock_path env req)) 0) as [Hr|Hr].
  - eexists _, (cooldown_checked env req w). split; [reflexivity|]. split.
    + now apply ceil_div_pos.
    + apply grows_events, grows_cooldown_checked.
  - destruct Hl as [Hl|Hl]; [apply remaining_live in Hl; lia|].
    apply remaining_live_pending in Hl.
    destruct (Z.gtb_spec (remaining env (cooldown_checked env req w)
                                    (pending_path env req)) 0); [|lia].
    eexists _, (pending_checked env req w). split; [reflexivity|]. split.
    + now apply ceil_div_pos.
    + apply grows_events, grows_pending_checked.
Qed.

Lemma in_events_grows ev w w1 w2 :
  grows_quietly w w1 -> grows_quietly w1 w2 ->
  In ev (events_since w w1) -> In ev (events_since w w2).
Proof.
  intros (d1 & H1 & _) (d2 & H2 & _).
  rewrite (events_since_app _ _ _ H1).
  assert (H3 : trace w2 = trace w ++ (d1 ++ d2)) by now rewrite H2, H1, app_assoc.
  rewrite (events_since_app _ _ _ H3). intros H. apply in_or_app. now left.
Qed.

Lemma read_event_after_read p w :
  In (EvReadFile p) (events_since w (after_read env p w)).
Proof.
  unfold after_read. destruct (stored env w p) as [data|].
  - destruct (number_above _ _); (erewrite events_since_app by reflexivity); cbn; auto.
  - erewrite events_since_app by reflexivity. cbn. auto.
Qed.

Lemma in_events_shift ev w w1 w2 :
  grows_quietly w w1 -> In ev (events_since w1 w2) ->
  (exists d, trace w2 = trace w1 ++ d) -> In ev (events_since w w2).
Proof.
  intros (d1 & H1 & _) Hin (d2 & H2).
  rewrite (events_since_app _ _ _ H2) in Hin.
  assert (H3 : trace w2 = trace w ++ (d1 ++ d2)) by now rewrite H2, H1, app_assoc.
  rewrite (events_since_app _ _ _ H3). apply in_or_app. now right.
Qed.

Lemma lock_read_in_pending_set req w :
  In (EvReadFile (lock_path env req)) (events_since w (pending_set env req w)).
Proof.
  apply (in_events_grows _ _ (cooldown_checked env req w)).
  - apply grows_cooldown_checked.
  - eapply grows_trans; [apply grows_after_read | apply grows_after_write].
  - apply (in_events_shift _ _ (verified env req w)).
    + apply grows_verified.
    + apply read_event_after_read.
    + destruct (grows_after_read env (lock_path env req) (verified env req w))
        as (d & H & _). eauto.
Qed.

Lemma pending_read_in_pending_set req w :
  In (EvReadFile (pending_path env req)) (events_since w (pending_set env req w)).
Proof.
  apply (in_events_grows _ _ (pending_checked env req w)).
  - apply grows_pending_checked.
  - apply grows_after_write.
  - apply (in_events_shift _ _ (cooldown_checked env req w)).
    + apply grows_cooldown_checked.
    + apply read_event_after_read.
    + destruct (grows_after_read env (pending_path env req) (cooldown_checked env req w))
        as (d & H & _). eauto.
Qed.

(** A lookup is falsy exactly for a network that is not configured and
    is no inherited name: a name outside the tables that no object
    inherits, or a key of the tables whose RPC URL is unset or empty. *)
Lemma unsupported_spec req :
  unsupported env req <-> configured env req = false /\ inherited req = false.
Proof.
  unfold unsupported, configured, inherited, rpcUrl_of, contract_of, lookup.
  unfold RPC, FAUCET_CONTRACTS. cbv zeta.
  generalize (template (body_network req)). intros k. cbn [assoc].
  destruct (String.eqb_spec k "amoy") as [->|_].
  { destruct (env_POLYGON_RPC env) as [[|]|]; cbn; intuition congruence. }
  destruct (String.eqb_spec k "avax") as [->|_].
  { destruct (env_AVAX_RPC env) as [[|]|]; cbn; intuition congruence. }
  destruct (String.eqb_spec k "sepolia") as [->|_].
  { destruct (env_SEPOLIA_RPC env) as [[|]|]; cbn; intuition congruence. }
  destruct (String.eqb_spec k "base") as [->|_].
  { destruct (env_BASE_RPC env) as [[|]|]; cbn; intuition congruence. }
  destruct (existsb (String.eqb k) Object_prototype); cbn; intuition congruence.
Qed.

(** C2, amended. A request for which [RPC[network]] or
    [FAUCET_CONTRACTS[network]] is falsy, that is, whose network is not
    configured and is no name inherited from [Object.prototype]
    ([unsupported_spec]), never causes a call to the chain, and is
    answered 400 "Invalid captcha" (captcha gate), 429 "Wait before next
    claim" (lock check) or 400 "Invalid network". When it passes the
    captcha gate and both lock records have lapsed the answer is 400
    "Invalid network", given after the cooldown and pending records were
    read. Nothing is said of the inherited names, for which both lookups
    are truthy. *)
Theorem unsupported_network_is_rejected_after_the_gates req w :
  unsupported env req ->
  exists resp w',
    claim env req w = (Ok resp, w')
    /\ quiet (events_since w w')
    /\ (resp = invalid_captcha
        \/ (exists wait, resp = wait_response 429 wait)
        \/ resp = invalid_network)
    /\ (passes_captcha env req w ->
        lapsed env w (lock_path env req) ->
        lapsed env w (pending_path env req) ->
        resp = invalid_network
        /\ In (EvReadFile (lock_path env req)) (events_since w w')
        /\ In (EvReadFile (pending_path env req)) (events_since w w')).
Proof.
  intros Hu.
  assert (Hn : negb (truthy_looked (rpcUrl_of env req))
               || negb (truthy_looked (contract_of req)) = true).
  { destruct Hu as [-> | ->]; [reflexivity | apply orb_true_r]. }
  rewrite claim_eq, gates_run, Hn.
  destruct (truthy_str (body_captchaToken req)) eqn:Ht; cbn [negb].
  2:{ eexists _, w. split; [reflexivity|]. split; [apply grows_events, grows_refl|].
      split; [now left|]. intros [Hc _]. congruence. }
  destruct (verdict env _ _) eqn:Hv; cbn [negb].
  2:{ eexists _, _. split; [reflexivity|].
      split; [apply grows_events, grows_verified|].
      split; [now left|]. intros Hc.
      apply passes_captcha_verdict in Hc. destruct Hc. congruence. }
  rewrite remaining_verified.
  destruct (Z.gtb_spec (remaining env w (lock_path env req)) 0) as [Hr|Hr].
  { eexists _, _. split; [reflexivity|].
    split; [apply grows_events, grows_cooldown_checked|].
    split; [right; left; eauto|]. intros _ Hl _.
    rewrite (remaining_lapsed _ _ Hl) in Hr. lia. }
  destruct (Z.gtb_spec (remaining env (cooldown_checked env req w)
                                  (pending_path env req)) 0) as [Hp|Hp].
  { eexists _, _. split; [reflexivity|].
    split; [apply grows_events, grows_pending_checked|].
    split; [right; left; eauto|]. intros _ _ Hl.
    rewrite (remaining_lapsed_pending _ _ Hl) in Hp. lia. }
  eexists _, _. split; [reflexivity|].
  split; [apply grows_events, grows_pending_set|].
  split; [now right; right|]. intros _ _ _.
  split; [reflexivity|]. split.
  - apply lock_read_in_pending_set.
  - apply pending_read_in_pending_set.
Qed.

Lemma quiet_has_no_dispatch d req :
  quiet d -> ~ In (chain env req (CallAdminClaimFor (body_recipient req))) d.
Proof.
  intros Hq Hin. unfold quiet in Hq. rewrite List.Forall_forall in Hq.
  specialize (Hq _ Hin). discriminate Hq.
Qed.

Lemma quoted_has_no_dispatch req w :
  ~ In (chain env req (CallAdminClaimFor (body_recipient req)))
       (events_since w (quoted env req w)).
Proof.
  destruct (grows_pending_set env req w) as (d & Hd & Hq).
  assert (H : trace (quoted env req w) = trace w ++ (d ++ [chain env req CallClaimAmount])).
  { unfold quoted, logged. cbn [trace]. now rewrite Hd, app_assoc. }
  rewrite (events_since_app _ _ _ H). intros Hin.
  apply in_app_or in Hin. destruct Hin as [Hin | [Hin | []]].
  - exact (quiet_has_no_dispatch _ _ Hq Hin).
  - discriminate Hin.
Qed.

(** A run in which [adminClaimFor] was called went through every gate
    and settled from the world [quoted]. *)
Lemma dispatched_run req w resp w' :
  claim env req w = (Ok resp, w') ->
  In (chain env req (CallAdminClaimFor (body_recipient req))) (events_since w w') ->
  match settle env req (quoted env req w) with
  | (Ok r, w'') => (Ok r, w'')
  | (Throw e, w'') => (Ok (failure_response e), w'')
  end = (Ok resp, w').
Proof.
  rewrite claim_eq, gates_run. intros Hrun Hin.
  destruct (negb (truthy_str _)).
  { injection Hrun as _ <-. exfalso. revert Hin.
    apply quiet_has_no_dispatch, grows_events, grows_refl. }
  destruct (negb (verdict env _ _)).
  { injection Hrun as _ <-. exfalso. revert Hin.
    apply quiet_has_no_dispatch, grows_events, grows_verified. }
  destruct (_ >? 0).
  { injection Hrun as _ <-. exfalso. revert Hin.
    apply quiet_has_no_dispatch, grows_events, grows_cooldown_checked. }
  destruct (_ >? 0).
  { injection Hrun as _ <-. exfalso. revert Hin.
    apply quiet_has_no_dispatch, grows_events, grows_pending_checked. }
  destruct (negb _ || negb _).
  { injection Hrun as _ <-. exfalso. revert Hin.
    apply quiet_has_no_dispatch, grows_events, grows_pending_set. }
  destruct (negb (ethers_isAddress env _)).
  { injection Hrun as _ <-. exfalso. revert Hin.
    apply quiet_has_no_dispatch, grows_events, grows_pending_set. }
  destruct (claimAmount _).
  - exact Hrun.
  - injection Hrun as _ <-. exfalso. revert Hin. apply quoted_has_no_dispatch.
Qed.

(** C5. When the dispatch of a request is confirmed with transaction
    hash [hash], the route answers 200 [{success: true, txHash: hash}];
    afterwards the pending record is absent (the unlink being let
    through) and the cooldown record holds [firstSeenAt], [expiresAt]
    set to the clock reading of the write (the last reading of the run)
    plus 86400 seconds, and the recipient, network and transaction hash
    (the write being let through). *)
Theorem confirmed_dispatch_promotes_lock req w resp w' hash :
  claim env req w = (Ok resp, w') ->
  In (chain env req (CallAdminClaimFor (body_recipient req))) (events_since w w') ->
  dispatch (faucet_of env req) (body_recipient req) = Ok hash ->
  resp = mkResponse 200 [("success", JBool true); ("txHash", JStr hash)]
  /\ (fs_denied env OpUnlink (pending_path env req) = false ->
      files w' !! pending_path env req = None)
  /\ (fs_denied env OpWrite (lock_path env req) = false ->
      exists n,
        ticks w' = S (S n)
        /\ files w' !! lock_path env req
        = Some (JSON_stringify env
                  (JObj [("firstSeenAt", JNum (clock env n));
                         ("expiresAt", JNum (clock env (S n) + 86400 * 1000));
                         ("lastAddress", js_of_str (body_recipient req));
                         ("lastNetwork", js_of_str (body_network req));
                         ("txHash", JStr hash)]))).
Proof.
  intros Hrun Hin Hd. apply dispatched_run in Hrun; [|exact Hin].
  rewrite settle_run in Hrun. cbv zeta in Hrun. rewrite Hd in Hrun.
  injection Hrun as <- <-. split; [reflexivity|]. split.
  - intros Hu. unfold promoted, after_clear. cbn [files]. rewrite Hu.
    apply lookup_delete_eq.
  - intros Hw. exists (ticks (quoted env req w)). split; [reflexivity|].
    unfold promoted, after_clear, after_write. cbn [files ticks logged].
    rewrite Hw.
    destruct (fs_denied env OpUnlink (pending_path env req)).
    + rewrite lookup_insert_eq. reflexivity.
    + rewrite lookup_delete_ne by (apply not_eq_sym, lock_pending_paths_differ).
      rewrite lookup_insert_eq. reflexivity.
Qed.

Lemma Number_of_BigInt_safe z :
  Z.abs z <= 9007199254740991 -> Number_of_BigInt z = z.
Proof.
  intros H. unfold Number_of_BigInt. cbv zeta.
  destruct (Z.ltb_spec (Z.abs z) (2 ^ 53)) as [_|Hge]; [reflexivity|].
  change (2 ^ 53) with 9007199254740992 in Hge. lia.
Qed.

(** C4, amended. When the dispatch of a request is refused by the
    contract with code [CALL_EXCEPTION] and reason "Wait before next
    claim", the answer depends on the two reads that follow. If
    [lastClaim(recipient)] and [cooldown()] return [last] and [cd], the
    route answers 400 "Wait before next claim" with
    [wait = max(0, Number(last + cd - now))], where [now] is the last
    clock reading of the run in whole seconds; that is
    [max(0, last + cd - now)] itself as long as the difference is a safe
    integer (at most 2^53 - 1 in size); and the pending record is absent
    afterwards (the unlink being let through). If one of the two reads
    throws, the route answers 500 with the message of what was thrown. *)
Theorem chain_cooldown_rejection_reports_wait req w resp w' e :
  claim env req w = (Ok resp, w') ->
  In (chain env req (CallAdminClaimFor (body_recipient req))) (events_since w w') ->
  dispatch (faucet_of env req) (body_recipient req) = Throw e ->
  err_code e = Some "CALL_EXCEPTION" ->
  err_reason e = Some "Wait before next claim" ->
  (forall last cd,
     lastClaim (faucet_of env req) (body_recipient req) = Ok last ->
     cooldown (faucet_of env req) = Ok cd ->
     exists n,
       ticks w' = S n
       /\ resp = mkResponse 400
                   [("success", JBool false);
                    ("error", JStr "Wait before next claim");
                    ("wait", JNum (Z.max 0 (Number_of_BigInt
                                              (last + cd - clock env n / 1000))))]
       /\ (Z.abs (last + cd - clock env n / 1000) <= 9007199254740991 ->
           resp = mkResponse 400
                    [("success", JBool false);
                     ("error", JStr "Wait before next claim");
                     ("wait", JNum (Z.max 0 (last + cd - clock env n / 1000)))])
       /\ (fs_denied env OpUnlink (pending_path env req) = false ->
           files w' !! pending_path env req = None))
  /\ (forall e',
        lastClaim (faucet_of env req) (body_recipient req) = Throw e'
        \/ (exists last,
              lastClaim (faucet_of env req) (body_recipient req) = Ok last)
           /\ cooldown (faucet_of env req) = Throw e' ->
        resp = mkResponse 500 [("success", JBool false);
                               ("error", JStr (err_message e'))]).
Proof.
  intros Hrun Hin Hd Hcode Hreason.
  apply dispatched_run in Hrun; [|exact Hin].
  rewrite settle_run in Hrun. cbv zeta in Hrun.
  rewrite Hd in Hrun. unfold is_wait_rejection in Hrun.
  rewrite Hcode, Hreason in Hrun. cbn [str_is] in Hrun.
  change (String.eqb "CALL_EXCEPTION" "CALL_EXCEPTION") with true in Hrun.
  change (String.eqb "Wait before next claim" "Wait before next claim")
    with true in Hrun.
  cbn [andb] in Hrun.
  split.
  - intros last cd Hlast Hcd. rewrite Hlast, Hcd in Hrun. injection Hrun as <- <-.
    exists (ticks (quoted env req w)). split; [reflexivity|]. split; [reflexivity|].
    split.
    + intros Hsafe. unfold wait_response.
      repeat f_equal. exact (Number_of_BigInt_safe _ Hsafe).
    + intros Hu. unfold refused, after_clear. cbn [files]. rewrite Hu.
      apply lookup_delete_eq.
  - intros e' [Hlast | [[last Hlast] Hcd]].
    + rewrite Hlast in Hrun. injection Hrun as <- _. reflexivity.
    + rewrite Hlast, Hcd in Hrun. injection Hrun as <- _. reflexivity.
Qed.

(** The pending record a request wrote is still on disk when the route
    answers for an unsupported network, for a malformed recipient or
    after [claimAmount] threw: none of these exits calls [clearIpPending]. *)
Lemma early_exit_keeps_pending_lock req w :
  passes_captcha env req w ->
  lapsed env w (lock_path env req) ->
  lapsed env w (pending_path env req) ->
  fs_denied env OpWrite (pending_path env req) = false ->
  unsupported env req
  \/ ethers_isAddress env (body_recipient req) = false
  \/ (exists e, claimAmount (faucet_of env req) = Throw e) ->
  exists resp w',
    claim env req w = (Ok resp, w')
    /\ (status resp = 400 \/ status resp = 500)
    /\ files w' !! pending_path env req
       = Some (written env PENDING_MS (pending_meta req) (pending_checked env req w)).
Proof.
  intros Hc Hl Hp Hw Hexit.
  assert (Hfile : files (pending_set env req w) !! pending_path env req
                  = Some (written env PENDING_MS (pending_meta req)
                                  (pending_checked env req w))).
  { unfold pending_set, after_write. cbn [files]. rewrite Hw. apply lookup_insert_eq. }
  rewrite claim_eq, (gates_verified _ _ Hc).
  rewrite (remaining_lapsed _ _ Hl), (remaining_lapsed_pending _ _ Hp).
  cbn [Z.gtb Z.compare].
  destruct (negb _ || negb _) eqn:Hn.
  { eexists _, _. split; [reflexivity|]. split; [now left | exact Hfile]. }
  destruct (negb (ethers_isAddress env _)) eqn:Ha.
  { eexists _, _. split; [reflexivity|]. split; [now left | exact Hfile]. }
  destruct Hexit as [Hu | [Hb | (e & He)]].
  - apply orb_false_elim in Hn. destruct Hn as [H1 H2].
    destruct Hu as [Hu | Hu]; rewrite Hu in *; discriminate.
  - rewrite Hb in Ha. discriminate Ha.
  - rewrite He. eexists _, _. split; [reflexivity|]. split; [now right | exact Hfile].
Qed.

End Claim.

(** ** Concrete runs *)

Example sha256_abc :
  SHA256.hexdigest "abc"
  = "ba7816bf8f01cfea414140de5dae2223b00361a396177a9cb410ff61f20015ad".
Proof. vm_compute. reflexivity. Qed.

Example sha256_empty :
  SHA256.hexdigest EmptyString
  = "e3b0c44298fc1c149afbf4c8996fb92427ae41e4649b934ca495991b7852b855".
Proof. vm_compute. reflexivity. Qed.

Example sha256_two_blocks :
  SHA256.hexdigest "aaaaaaaaaaaaaaaaaaaaaaaaaaaaaaaaaaaaaaaaaaaaaaaaaaaaaaaa"
  = "b35439a4ac6f0948b6d6f9e3c6af0f5f590ce20f1bde7090ef7970686ec6738a".
Proof. vm_compute. reflexivity. Qed.

Example hashKey_sepolia :
  hashKey Demo.ip (Some "sepolia")
  = "70ccaabdf86f0356df4af43a72fccbac99b9c4c23f41bdc7b149f601ac175d71".
Proof. vm_compute. reflexivity. Qed.

Example getClientIp_strips_mapped_prefix :
  getClientIp Demo.env Demo.good = Demo.ip.
Proof. vm_compute. reflexivity. Qed.

Example first_claim_succeeds :
  fst (claim Demo.env Demo.good Demo.fresh)
  = Ok (mkResponse 200 [("success", JBool true); ("txHash", JStr "0xfeedbeef")]).
Proof. vm_compute. reflexivity. Qed.

Example stored_cooldown_record :
  FlatJSON.parse
    (default EmptyString (files Demo.claimed !! lock_path Demo.env Demo.good))
  = Some (JObj [("firstSeenAt", JNum 1700000000500);
                ("expiresAt", JNum 1700086400750);
                ("lastAddress", JStr Demo.address);
                ("lastNetwork", JStr "sepolia");
                ("txHash", JStr "0xfeedbeef")]).
Proof. vm_compute. reflexivity. Qed.

Lemma claimed_lock_expires :
  expires_at Demo.env Demo.claimed (lock_path Demo.env Demo.good) 1700086400750.
Proof.
  exists (default JNull (stored Demo.env Demo.claimed (lock_path Demo.env Demo.good))).
  split; vm_compute; reflexivity.
Defined.

Lemma good_passes_captcha w : passes_captcha Demo.env Demo.good w.
Proof. split; reflexivity. Defined.

Lemma fresh_has_lapsed env p : lapsed env Demo.fresh p.
Proof.
  intros e (data & Hs & _). unfold stored in Hs.
  destruct (fs_denied env OpRead p); discriminate Hs.
Defined.

Lemma claim_without_token_is_invalid_captcha_witness :
  claim Demo.env Demo.no_token Demo.claimed
  = (Ok (mkResponse 400 [("success", JBool false); ("error", JStr "Invalid captcha")]),
     Demo.claimed).
Proof.
  apply (claim_without_token_is_invalid_captcha Demo.env Demo.no_token Demo.claimed).
  reflexivity.
Defined.

Lemma verifyHCaptcha_fails_closed_witness :
  fst (verifyHCaptcha Demo.env (Some "bad-token") Demo.ip Demo.fresh) = Ok false.
Proof.
  destruct (verifyHCaptcha_fails_closed Demo.env (Some "bad-token") Demo.ip Demo.fresh)
    as (_ & _ & _ & _ & H & _).
  apply (H (mkHttp (Ok (JObj [("success", JBool false)])))
           (JObj [("success", JBool false)])); reflexivity.
Defined.

(** C8, as stated, fails: with a configured secret and an upstream that
    reports success, [verifyHCaptcha] called without a token posts an
    empty [response] field and returns [true]. *)
Lemma missing_token_is_left_to_the_upstream :
  ~ fails_closed Demo.lenient_env None Demo.ip Demo.fresh.
Proof.
  intros H. unfold fails_closed in H.
  specialize (H (or_intror (or_introl eq_refl))).
  vm_compute in H. discriminate H.
Qed.

Lemma lock_read_honours_expiry_witness :
  read_honours_expiry Demo.env Demo.next_day
    (lockPathFor Demo.env Demo.ip (Some "sepolia")) 1700086400750
    (getIpCooldown Demo.env Demo.ip (Some "sepolia") Demo.next_day).
Proof.
  apply (proj1 (lock_read_honours_expiry Demo.env Demo.ip (Some "sepolia")
                  Demo.next_day 1700086400750)).
  exists (default JNull (stored Demo.env Demo.next_day
                           (lockPathFor Demo.env Demo.ip (Some "sepolia")))).
  split; vm_compute; reflexivity.
Defined.

Lemma garbled_lock_is_corrupt :
  corrupt Demo.env Demo.garbled (lockPathFor Demo.env Demo.ip (Some "sepolia")).
Proof.
  right. left. exists "firstSeenAt=1700000000000". split; vm_compute; reflexivity.
Defined.

Lemma garbled_has_no_pending :
  lapsed Demo.env Demo.garbled (pending_path Demo.env Demo.good).
Proof.
  intros e (data & Hs & _). vm_compute in Hs. discriminate Hs.
Defined.

Lemma corrupt_lock_reads_as_absent_witness :
  fst (getIpCooldown Demo.env Demo.ip (Some "sepolia") Demo.garbled) = Ok 0
  /\ exists resp w',
       claim Demo.env Demo.good Demo.garbled = (Ok resp, w') /\ status resp <> 429.
Proof.
  destruct (corrupt_lock_reads_as_absent Demo.env Demo.ip (Some "sepolia")
              Demo.good Demo.garbled)
    as (H1 & _ & _ & _ & resp & w' & Hrun & H5).
  split.
  - apply H1, garbled_lock_is_corrupt.
  - exists resp, w'. split; [exact Hrun|]. apply H5.
    + left. apply garbled_lock_is_corrupt.
    + right. apply garbled_has_no_pending.
Defined.

Lemma cooldown_lock_rejects_verified_request_witness :
  blocked_by_cooldown Demo.env Demo.good Demo.claimed 1700086400750.
Proof.
  apply (cooldown_lock_rejects_verified_request Demo.env Demo.good Demo.claimed).
  - apply good_passes_captcha.
  - apply claimed_lock_expires.
  - vm_compute. reflexivity.
Defined.

(** C6, as stated, fails: during the cooldown a request without captcha
    token is answered 400 "Invalid captcha", not 429. *)
Lemma cooldown_request_without_token :
  ~ cooldown_blocks Demo.env Demo.no_token Demo.claimed.
Proof.
  intros H. destruct (H 1700086400750) as (w' & Hrun & _).
  - apply claimed_lock_expires.
  - vm_compute. reflexivity.
  - assert (Hc : fst (claim Demo.env Demo.no_token Demo.claimed) = Ok invalid_captcha)
      by (vm_compute; reflexivity).
    rewrite Hrun in Hc. discriminate Hc.
Qed.

Lemma claimed_lock_is_live :
  live Demo.env Demo.claimed (lockPathFor Demo.env Demo.ip (Some "sepolia")).
Proof.
  exists 1700086400750. split; [apply claimed_lock_expires|].
  split; vm_compute; reflexivity.
Defined.

Lemma live_lock_rejects_same_network_witness :
  exists wait w',
    claim Demo.env Demo.good Demo.claimed
    = (Ok (mkResponse 429 [("success", JBool false);
                           ("error", JStr "Wait before next claim");
                           ("wait", JNum wait)]), w')
    /\ 0 < wait
    /\ quiet (events_since Demo.claimed w').
Proof.
  apply (live_lock_rejects_same_network Demo.env Demo.good Demo.claimed).
  - apply good_passes_captcha.
  - left. apply claimed_lock_is_live.
Defined.

(** C3, as stated, fails twice over. With a live cooldown record for
    sepolia, the same client's request for base reaches [adminClaimFor]
    and is answered 200; and its request for sepolia without captcha
    token is answered 400 "Invalid captcha", not "Wait before next
    claim". *)
Lemma lock_does_not_cover_other_network :
  ~ lock_covers Demo.env Demo.claimed Demo.other_network (Some "sepolia")
  /\ ~ lock_covers Demo.env Demo.claimed Demo.no_token (Some "sepolia").
Proof.
  split; intros H.
  - destruct H as (code & wait & w' & _ & Hrun & _).
    + left. apply claimed_lock_is_live.
    + reflexivity.
    + reflexivity.
    + assert (Hc : fst (claim Demo.env Demo.other_network Demo.claimed)
                   = Ok (success_response "0xfeedbeef")) by (vm_compute; reflexivity).
      rewrite Hrun in Hc. discriminate Hc.
  - destruct H as (code & wait & w' & _ & Hrun & _).
    + left. apply claimed_lock_is_live.
    + reflexivity.
    + reflexivity.
    + assert (Hc : fst (claim Demo.env Demo.no_token Demo.claimed) = Ok invalid_captcha)
        by (vm_compute; reflexivity).
      rewrite Hrun in Hc. discriminate Hc.
Qed.

Lemma unsupported_network_is_rejected_after_the_gates_witness :
  exists w',
    claim Demo.env Demo.unknown_network Demo.fresh = (Ok invalid_network, w')
    /\ quiet (events_since Demo.fresh w')
    /\ In (EvReadFile (lock_path Demo.env Demo.unknown_network))
          (events_since Demo.fresh w').
Proof.
  destruct (unsupported_network_is_rejected_after_the_gates
              Demo.env Demo.unknown_network Demo.fresh)
    as (resp & w' & Hrun & Hq & _ & Hfull).
  - left. reflexivity.
  - destruct Hfull as (-> & Hl & _).
    + apply good_passes_captcha.
    + apply fresh_has_lapsed.
    + apply fresh_has_lapsed.
    + exists w'. auto.
Defined.

(** C2, as stated, fails twice over. A verified request for an unknown
    network has the lock directory created and read before it is
    answered; and an unverified one is answered "Invalid captcha". *)
Lemma unsupported_network_touches_the_store :
  ~ rejects_network_first Demo.env Demo.unknown_network Demo.fresh
  /\ ~ rejects_network_first Demo.env Demo.unknown_network_no_token Demo.fresh.
Proof.
  split; intros H.
  - destruct H as (w' & Hrun & Hall); [left; reflexivity|].
    assert (Hw : w' = snd (claim Demo.env Demo.unknown_network Demo.fresh))
      by now rewrite Hrun.
    assert (Hin : In (EvMkdir (LOCK_DIR Demo.env))
                     (events_since Demo.fresh
                        (snd (claim Demo.env Demo.unknown_network Demo.fresh))))
      by (vm_compute; right; left; reflexivity).
    rewrite <- Hw in Hin. rewrite List.Forall_forall in Hall.
    destruct (Hall _ Hin) as [Hs _]. discriminate Hs.
  - destruct H as (w' & Hrun & _); [left; reflexivity|].
    assert (Hc : fst (claim Demo.env Demo.unknown_network_no_token Demo.fresh)
                 = Ok invalid_captcha) by (vm_compute; reflexivity).
    rewrite Hrun in Hc. discriminate Hc.
Qed.

Lemma dispatch_event_of_first_claim env :
  (env = Demo.env \/ env = Demo.cooling_env) ->
  In (chain env Demo.good (CallAdminClaimFor (body_recipient Demo.good)))
     (events_since Demo.fresh (snd (claim env Demo.good Demo.fresh))).
Proof.
  intros [-> | ->]; vm_compute; do 8 right; left; reflexivity.
Defined.

Lemma confirmed_dispatch_promotes_lock_witness :
  files Demo.claimed !! pending_path Demo.env Demo.good = None
  /\ exists n,
       ticks Demo.claimed = S (S n)
       /\ files Demo.claimed !! lock_path Demo.env Demo.good
       = Some (FlatJSON.stringify
                 (JObj [("firstSeenAt", JNum (clock Demo.env n));
                        ("expiresAt", JNum (clock Demo.env (S n) + 86400 * 1000));
                        ("lastAddress", JStr Demo.address);
                        ("lastNetwork", JStr "sepolia");
                        ("txHash", JStr "0xfeedbeef")])).
Proof.
  destruct (confirmed_dispatch_promotes_lock Demo.env Demo.good Demo.fresh
              (success_response "0xfeedbeef") Demo.claimed "0xfeedbeef")
    as (_ & Hp & Hl).
  - vm_compute. reflexivity.
  - apply dispatch_event_of_first_claim. now left.
  - reflexivity.
  - split; [apply Hp | apply Hl]; reflexivity.
Defined.

Lemma chain_cooldown_rejection_reports_wait_witness :
  fst (claim Demo.cooling_env Demo.good Demo.fresh) = Ok (wait_response 400 85400)
  /\ files (snd (claim Demo.cooling_env Demo.good Demo.fresh))
       !! pending_path Demo.cooling_env Demo.good = None.
Proof.
  destruct (chain_cooldown_rejection_reports_wait Demo.cooling_env Demo.good Demo.fresh
              (wait_response 400 85400)
              (snd (claim Demo.cooling_env Demo.good Demo.fresh))
              Demo.wait_error)
    as [Hw _].
  - vm_compute. reflexivity.
  - apply dispatch_event_of_first_claim. now right.
  - reflexivity.
  - reflexivity.
  - reflexivity.
  - destruct (Hw 1699999000 86400 eq_refl eq_refl) as (n & _ & _ & _ & Hp).
    split; [vm_compute; reflexivity | apply Hp; reflexivity].
Defined.

Example Number_of_BigInt_rounds_to_even :
  Number_of_BigInt (2 ^ 53 - 1) = 2 ^ 53 - 1
  /\ Number_of_BigInt (2 ^ 53 + 1) = 2 ^ 53
  /\ Number_of_BigInt (2 ^ 53 + 2) = 2 ^ 53 + 2
  /\ Number_of_BigInt (2 ^ 53 + 3) = 2 ^ 53 + 4
  /\ Number_of_BigInt (2 ^ 54 + 2) = 2 ^ 54
  /\ Number_of_BigInt (2 ^ 54 + 3) = 2 ^ 54 + 4
  /\ Number_of_BigInt (2 ^ 54 + 6) = 2 ^ 54 + 8
  /\ Number_of_BigInt (2 ^ 64 - 1) = 2 ^ 64
  /\ Number_of_BigInt (- (2 ^ 53 + 1)) = - 2 ^ 53
  /\ Number_of_BigInt (2 ^ 256 - 1) = 2 ^ 256.
Proof. repeat split; vm_compute; reflexivity. Qed.

Example wait_is_rounded_to_a_double :
  fst (claim patient_env Demo.good Demo.fresh)
  = Ok (wait_response 400 9007199254740992)
  /\ 1699999000 + 9007199254741993 - clock patient_env 2 / 1000 = 9007199254740993.
Proof. split; vm_compute; reflexivity. Qed.

(** C4, as stated, fails twice over. When the read of [lastClaim] that
    follows the rejection times out, the route answers 500 without a
    [wait]; and when [lastClaim + cooldown - now] is 2^53 + 1 the [wait]
    of the answer is 2^53, the double [Number] makes of it. *)
Lemma rejection_does_not_always_report_the_wait :
  ~ rejection_reports_wait Demo.flaky_env Demo.good Demo.fresh
  /\ ~ rejection_reports_wait patient_env Demo.good Demo.fresh.
Proof.
  split; intros H.
  - destruct (H Demo.wait_error) as (wait & Hr & _).
    + vm_compute. repeat (first [left; reflexivity | right]).
    + reflexivity.
    + reflexivity.
    + vm_compute in Hr. discriminate Hr.
  - destruct (H Demo.wait_error) as (wait & Hr & Hwait & _).
    + vm_compute. repeat (first [left; reflexivity | right]).
    + reflexivity.
    + reflexivity.
    + specialize (Hwait 1699999000 9007199254741993 2%nat eq_refl eq_refl).
      assert (Ht : ticks (snd (claim patient_env Demo.good Demo.fresh)) = 3%nat)
        by (vm_compute; reflexivity).
      specialize (Hwait Ht).
      assert (Hv : fst (claim patient_env Demo.good Demo.fresh)
                   = Ok (wait_response 400 9007199254740992))
        by (vm_compute; reflexivity).
      rewrite Hv in Hr. injection Hr as Hr. subst wait.
      vm_compute in Hwait. discriminate Hwait.
Qed.

(** C1 fails on the code. Four requests that write the pending lock and
    end without success leave it on disk: an unknown network (400
    "Invalid network"), a malformed recipient (400 "Invalid recipient
    address"), an RPC endpoint that is down when [claimAmount] is read
    (500), and a contract rejection after which the read of [lastClaim]
    times out (500). After the malformed recipient the client's
    corrected request is turned away for the 60 seconds the pending lock
    lasts. *)
Theorem pending_lock_survives_early_exits :
  (let out := claim Demo.env Demo.unknown_network Demo.fresh in
   fst out = Ok invalid_network
   /\ files (snd out) !! pending_path Demo.env Demo.unknown_network <> None)
  /\ (let out := claim Demo.env Demo.bad_recipient Demo.fresh in
      fst out = Ok invalid_recipient
      /\ files (snd out) !! pending_path Demo.env Demo.bad_recipient <> None
      /\ fst (claim Demo.env Demo.good (snd out)) = Ok (wait_response 429 60))
  /\ (let out := claim Demo.unreachable_env Demo.good Demo.fresh in
      fst out = Ok (mkResponse 500 [("success", JBool false);
                                    ("error", JStr "could not detect network")])
      /\ files (snd out) !! pending_path Demo.unreachable_env Demo.good <> None)
  /\ (let out := claim Demo.flaky_env Demo.good Demo.fresh in
      fst out = Ok (mkResponse 500 [("success", JBool false);
                                    ("error", JStr "request timeout")])
      /\ files (snd out) !! pending_path Demo.flaky_env Demo.good <> None).
Proof.
  repeat split; vm_compute; (reflexivity || discriminate).
Qed.

(** * Further properties of the code *)

Section Digest.

Import SHA256.

Lemma be_bytes_range n x : Forall (fun b => 0 <= b < 256) (be_bytes n x).
Proof.
  induction n; cbn [be_bytes]; constructor; [|assumption].
  apply Z.mod_pos_bound. lia.
Qed.

Lemma be_bytes_length n x : length (be_bytes n x) = n.
Proof. induction n; cbn [be_bytes length]; congruence. Qed.

Lemma digest_bytes msg :
  length (digest msg) = 32%nat /\ Forall (fun b => 0 <= b < 256) (digest msg).
Proof.
  unfold digest. cbv zeta. cbn [map concat]. split.
  - rewrite !length_app, !be_bytes_length. reflexivity.
  - repeat (apply Forall_app; split); try apply be_bytes_range. constructor.
Qed.

Lemma hex_length bs : String.length (hex bs) = (2 * length bs)%nat.
Proof. induction bs; cbn [hex String.length length]; lia. Qed.

Lemma hex_digit_is_hex d : 0 <= d < 16 -> is_hex_char (hex_digit d) = true.
Proof.
  intros H.
  assert (Hd : d = 0 \/ d = 1 \/ d = 2 \/ d = 3 \/ d = 4 \/ d = 5 \/ d = 6 \/ d = 7
               \/ d = 8 \/ d = 9 \/ d = 10 \/ d = 11 \/ d = 12 \/ d = 13 \/ d = 14
               \/ d = 15) by lia.
  repeat (destruct Hd as [-> | Hd]; [reflexivity|]). now subst.
Qed.

Lemma hex_is_hex bs :
  Forall (fun b => 0 <= b < 256) bs -> all_chars is_hex_char (hex bs) = true.
Proof.
  induction 1 as [|b bs Hb _ IH]; [reflexivity|].
  cbn [hex all_chars]. rewrite IH, !hex_digit_is_hex; [reflexivity| |].
  - apply Z.mod_pos_bound. lia.
  - split; [apply Z.div_pos; lia | apply Z.div_lt_upper_bound; lia].
Qed.

End Digest.

(** X1 ([hashKey], [lockPathFor], [pendingPathFor]). For every client
    address and every network the request may name, the two lock files
    lie directly in [LOCK_DIR] and share one base name of 64 lowercase
    hexadecimal characters, with the extensions [.lock] and [.pending]:
    nothing the client sends reaches the file name as it is. *)
Theorem lock_file_names_are_hex env ip network :
  exists name,
    lockPathFor env ip network = path_join (LOCK_DIR env) (name +:+ ".lock")
    /\ pendingPathFor env ip network = path_join (LOCK_DIR env) (name +:+ ".pending")
    /\ String.length name = 64%nat
    /\ all_chars is_hex_char name = true.
Proof.
  exists (hashKey ip network). split; [reflexivity|]. split; [reflexivity|].
  unfold hashKey, SHA256.hexdigest.
  destruct (digest_bytes (SHA256.bytes_of_string (ip +:+ "|" +:+ template network)))
    as [Hl Hr].
  split.
  - rewrite hex_length, Hl. reflexivity.
  - now apply hex_is_hex.
Qed.

Section ClientIp.

Context (env : Env).

Lemma or_else_truthy a b : truthy_string b = true -> truthy_string (or_else a b) = true.
Proof. intros H. unfold or_else. now destruct (truthy_string a) eqn:Ha. Qed.

Lemma remove_first_eq pat s :
  remove_first pat s
  = if String.prefix pat s
    then String.substring (String.length pat) (String.length s - String.length pat) s
    else match s with
         | EmptyString => EmptyString
         | String c rest => String c (remove_first pat rest)
         end.
Proof. now destruct s. Qed.

Lemma prefix_append p a : String.prefix p (p +:+ a) = true.
Proof.
  induction p as [|c p IH]; simpl; [now destruct a|].
  destruct (ascii_dec c c); [exact IH | congruence].
Qed.

Lemma substring_whole a : String.substring 0 (String.length a) a = a.
Proof. induction a as [|c a IH]; simpl; [reflexivity | now rewrite IH]. Qed.

Lemma substring_after p a n :
  String.substring (String.length p) n (p +:+ a) = String.substring 0 n a.
Proof. induction p as [|c p IH]; simpl; [reflexivity | exact IH]. Qed.

Lemma length_append p a :
  String.length (p +:+ a) = (String.length p + String.length a)%nat.
Proof. induction p as [|c p IH]; simpl; [reflexivity | now rewrite IH]. Qed.

Lemma remove_first_prefix p a : remove_first p (p +:+ a) = a.
Proof.
  rewrite remove_first_eq, prefix_append, substring_after, length_append.
  replace (String.length p + String.length a - String.length p)%nat
    with (String.length a) by lia.
  apply substring_whole.
Qed.

(** X2 ([getClientIp]). The client address is never the empty string,
    and unless [TRUST_PROXY] is ["true"] it does not depend on [req.ip],
    the address taken from the forwarded headers. *)
Theorem client_ip_is_never_empty req :
  getClientIp env req <> EmptyString
  /\ (str_is (env_TRUST_PROXY env) "true" = false ->
      forall ip, getClientIp env (with_ip req ip) = getClientIp env req).
Proof.
  split.
  - assert (H : truthy_string (getClientIp env req) = true).
    { unfold getClientIp. destruct (str_is _ _); repeat apply or_else_truthy; reflexivity. }
    intros E. rewrite E in H. discriminate H.
  - intros Hu ip. unfold getClientIp. now rewrite Hu.
Qed.

(** X3 ([getClientIp]). An IPv4-mapped address [::ffff:a] with [a] not
    empty is reported as [a]: read from the socket when the proxy is not
    trusted, from [req.ip] when it is. *)
Theorem client_ip_drops_mapped_prefix req a :
  a <> EmptyString ->
  (str_is (env_TRUST_PROXY env) "true" = false ->
   getClientIp env (from_address req (Some ("::ffff:" +:+ a))) = a)
  /\ (str_is (env_TRUST_PROXY env) "true" = true ->
      getClientIp env (with_ip req (Some ("::ffff:" +:+ a))) = a).
Proof.
  intros Ha.
  assert (Ht : truthy_string a = true) by (destruct a; [congruence | reflexivity]).
  split; intros Hm; unfold getClientIp; rewrite Hm;
    unfold or_empty, from_address, with_ip;
    cbn [req_remoteAddress req_ip from_option]; unfold id;
    rewrite remove_first_prefix; unfold or_else; now rewrite Ht.
Qed.

End ClientIp.

Section Store.

Context (env : Env).

Lemma assoc_obj_set k k' v o :
  assoc k (obj_set k' v o) = if String.eqb k k' then Some v else assoc k o.
Proof.
  induction o as [|[k0 v0] o IH]; cbn [obj_set assoc].
  - reflexivity.
  - destruct (String.eqb_spec k' k0) as [->|Hne]; cbn [assoc].
    + now destruct (String.eqb k k0).
    + rewrite IH. destruct (String.eqb_spec k k0) as [->|Hk]; [|reflexivity].
      destruct (String.eqb_spec k0 k'); [congruence | reflexivity].
Qed.

Lemma assoc_spread k o meta :
  assoc k meta = None -> assoc k (spread o meta) = assoc k o.
Proof.
  unfold spread. revert o. induction meta as [|[k1 v1] meta IH]; intros o H.
  - reflexivity.
  - cbn [assoc] in H. destruct (String.eqb k k1) eqn:Hk; [discriminate|].
    cbn [fold_left fst snd]. rewrite IH by assumption.
    now rewrite assoc_obj_set, Hk.
Qed.

Lemma expiry_payload f t ttl meta :
  assoc "expiresAt" meta = None -> expiry (payload f t ttl meta) = JNum (t + ttl).
Proof.
  intros H. unfold expiry, payload, opt_get. now rewrite assoc_spread.
Qed.

Lemma write_then_read p ttl meta w :
  assoc "expiresAt" meta = None ->
  fs_denied env OpWrite p = false ->
  fs_denied env OpRead p = false ->
  codec_keeps_expiry env
    (payload (clock env (ticks w)) (clock env (S (ticks w))) ttl meta) ->
  fst (read_lock env p (snd (write_lock env p ttl meta w)))
  = Ok (Z.max 0 (clock env (S (ticks w)) + ttl - clock env (S (S (ticks w))))).
Proof.
  intros Hm Hw Hr (data & Hp & He).
  rewrite write_lock_run, read_lock_run. cbn [fst snd]. f_equal.
  unfold remaining, stored, after_write, written. cbn [files ticks].
  rewrite Hr, Hw, lookup_insert_eq, Hp. cbv zeta.
  rewrite He, expiry_payload by assumption. cbn [number_above as_number].
  match goal with |- context [?a <? ?b] => destruct (Z.ltb_spec a b) end; lia.
Qed.

(** X4 ([setIpPending], [getIpPending], [setIpCooldown],
    [getIpCooldown]). A record that was just written is read back with
    the time it has left: the second clock reading of the write plus
    60000 ms (pending) or 86400000 ms (cooldown), minus the clock reading
    of the read, and never less than 0. This needs a [meta] without a key
    [expiresAt], a file that can be written and read, and a JSON codec
    that gives [expiresAt] back. *)
Theorem lock_written_then_read ip network meta w :
  assoc "expiresAt" meta = None ->
  (fs_denied env OpWrite (pendingPathFor env ip network) = false ->
   fs_denied env OpRead (pendingPathFor env ip network) = false ->
   codec_keeps_expiry env
     (payload (clock env (ticks w)) (clock env (S (ticks w))) PENDING_MS meta) ->
   fst (getIpPending env ip network (snd (setIpPending env ip network meta w)))
   = Ok (Z.max 0 (clock env (S (ticks w)) + 60000 - clock env (S (S (ticks w))))))
  /\ (fs_denied env OpWrite (lockPathFor env ip network) = false ->
      fs_denied env OpRead (lockPathFor env ip network) = false ->
      codec_keeps_expiry env
        (payload (clock env (ticks w)) (clock env (S (ticks w))) COOLDOWN_MS meta) ->
      fst (getIpCooldown env ip network (snd (setIpCooldown env ip network meta w)))
      = Ok (Z.max 0 (clock env (S (ticks w)) + 86400000
                     - clock env (S (S (ticks w)))))).
Proof.
  intros Hm. split; intros Hw Hr Hc.
  - rewrite setIpPending_eq, getIpPending_eq. now apply write_then_read.
  - rewrite setIpCooldown_eq, getIpCooldown_eq. now apply write_then_read.
Qed.

Lemma clear_lock_ok p w : fst (clear_lock env p w) = Ok tt.
Proof. now rewrite clear_lock_run. Qed.

Lemma clear_lock_spec p w :
  fst (clear_lock env p w) = Ok tt
  /\ (files w !! p = None -> files (snd (clear_lock env p w)) = files w)
  /\ (fs_denied env OpUnlink p = false ->
      fst (read_lock env p (snd (clear_lock env p w))) = Ok 0)
  /\ files (snd (clear_lock env p (snd (clear_lock env p w))))
     = files (snd (clear_lock env p w)).
Proof.
  rewrite !clear_lock_run. cbn [fst snd]. unfold after_clear. cbn [files].
  split; [reflexivity|]. split; [|split].
  - intros H. destruct (fs_denied env OpUnlink p); [reflexivity|]. now apply delete_id.
  - intros H. rewrite read_lock_run. cbn [fst]. f_equal.
    unfold remaining, stored. cbn [files]. rewrite H, lookup_delete_eq.
    now destruct (fs_denied env OpRead p).
  - destruct (fs_denied env OpUnlink p); [reflexivity|].
    apply delete_id, lookup_delete_eq.
Qed.

(** X5 ([clearIpPending], [clearIpCooldown]). Clearing never throws;
    where there is no file it leaves the directory as it was; where the
    unlink is permitted the next read of the lock gives 0; and clearing
    twice leaves the files that clearing once leaves. *)
Theorem clearing_a_lock_is_idempotent ip network w :
  let pp := pendingPathFor env ip network in
  let lp := lockPathFor env ip network in
  let w1 := snd (clearIpPending env ip network w) in
  let w2 := snd (clearIpCooldown env ip network w) in
  fst (clearIpPending env ip network w) = Ok tt
  /\ fst (clearIpCooldown env ip network w) = Ok tt
  /\ (files w !! pp = None -> files w1 = files w)
  /\ (files w !! lp = None -> files w2 = files w)
  /\ (fs_denied env OpUnlink pp = false -> fst (getIpPending env ip network w1) = Ok 0)
  /\ (fs_denied env OpUnlink lp = false -> fst (getIpCooldown env ip network w2) = Ok 0)
  /\ files (snd (clearIpPending env ip network w1)) = files w1
  /\ files (snd (clearIpCooldown env ip network w2)) = files w2.
Proof.
  cbv zeta.
  change (clearIpCooldown env ip network) with (clear_lock env (lockPathFor env ip network)).
  rewrite clearIpPending_eq, getIpPending_eq, getIpCooldown_eq.
  destruct (clear_lock_spec (pendingPathFor env ip network) w) as (A1 & A2 & A3 & A4).
  destruct (clear_lock_spec (lockPathFor env ip network) w) as (B1 & B2 & B3 & B4).
  repeat split; assumption.
Qed.

Lemma read_lock_frame p q w :
  p <> q -> files (snd (read_lock env p w)) !! q = files w !! q.
Proof. intros H. rewrite read_lock_run. now apply files_after_read_other. Qed.

Lemma write_lock_frame p q ttl meta w :
  p <> q -> files (snd (write_lock env p ttl meta w)) !! q = files w !! q.
Proof.
  intros H. rewrite write_lock_run. unfold after_write. cbn [snd files].
  destruct (fs_denied env OpWrite p); [reflexivity|]. now apply lookup_insert_ne.
Qed.

Lemma clear_lock_frame p q w :
  p <> q -> files (snd (clear_lock env p w)) !! q = files w !! q.
Proof.
  intros H. rewrite clear_lock_run. unfold after_clear. cbn [snd files].
  destruct (fs_denied env OpUnlink p); [reflexivity|]. now apply lookup_delete_ne.
Qed.

(** X6 (the six lock functions). Reading, writing and clearing the
    pending lock of a client and network leave every file but that
    pending file as it was, and likewise for the cooldown lock. *)
Theorem lock_operations_touch_one_file ip network meta w q :
  (q <> pendingPathFor env ip network ->
   files (snd (getIpPending env ip network w)) !! q = files w !! q
   /\ files (snd (setIpPending env ip network meta w)) !! q = files w !! q
   /\ files (snd (clearIpPending env ip network w)) !! q = files w !! q)
  /\ (q <> lockPathFor env ip network ->
      files (snd (getIpCooldown env ip network w)) !! q = files w !! q
      /\ files (snd (setIpCooldown env ip network meta w)) !! q = files w !! q
      /\ files (snd (clearIpCooldown env ip network w)) !! q = files w !! q).
Proof.
  change (clearIpCooldown env ip network) with (clear_lock env (lockPathFor env ip network)).
  rewrite getIpPending_eq, setIpPending_eq, clearIpPending_eq, getIpCooldown_eq,
    setIpCooldown_eq.
  split; intros H; repeat split;
    (apply read_lock_frame || apply write_lock_frame || apply clear_lock_frame);
    congruence.
Qed.

End Store.

Section Anatomy.

Context (env : Env).

Lemma gated_refl p w : grows_gated p w w.
Proof. exists []. split; [now rewrite app_nil_r | reflexivity]. Qed.

Lemma gated_trans p w1 w2 w3 :
  grows_gated p w1 w2 -> grows_gated p w2 w3 -> grows_gated p w1 w3.
Proof.
  intros (d1 & H1 & Q1) (d2 & H2 & Q2). exists (d1 ++ d2). split.
  - now rewrite H2, H1, app_assoc.
  - now rewrite forallb_app, Q1, Q2.
Qed.

Lemma gated_verified req w : grows_gated (lock_path env req) w (verified env req w).
Proof.
  unfold verified, after_verify.
  destruct (truthy_string (HCAPTCHA_SECRET env)); [|apply gated_refl].
  eexists. split; reflexivity.
Qed.

Lemma gated_after_read lp p w : grows_gated lp w (after_read env p w).
Proof.
  unfold after_read. destruct (stored env w p) as [data|].
  - destruct (number_above _ _); (eexists; split; reflexivity).
  - eexists. split; reflexivity.
Qed.

Lemma gated_pending_set req w : grows_gated (lock_path env req) w (pending_set env req w).
Proof.
  eapply gated_trans; [apply gated_verified|].
  eapply gated_trans; [apply gated_after_read|].
  eapply gated_trans; [apply gated_after_read|].
  eexists. split; [reflexivity|]. cbn [forallb gate_event is_chain_call is_write_to negb andb].
  destruct (String.eqb_spec (pending_path env req) (lock_path env req)) as [E|_];
    [|reflexivity].
  symmetry in E. now apply lock_pending_paths_differ in E.
Qed.

Lemma gated_cooldown_checked req w :
  grows_gated (lock_path env req) w (cooldown_checked env req w).
Proof. eapply gated_trans; [apply gated_verified | apply gated_after_read]. Qed.

Lemma gated_pending_checked req w :
  grows_gated (lock_path env req) w (pending_checked env req w).
Proof. eapply gated_trans; [apply gated_cooldown_checked | apply gated_after_read]. Qed.

Lemma remaining_zero_lapsed w p e :
  remaining env w p <= 0 -> expires_at env w p e -> e <= clock env (ticks w).
Proof. intros H He. rewrite (remaining_expires_at env _ _ _ He) in H. lia. Qed.

Lemma pending_zero_lapsed req w e :
  remaining env (cooldown_checked env req w) (pending_path env req) <= 0 ->
  expires_at env w (pending_path env req) e ->
  e <= clock env (ticks w) \/ e <= clock env (S (ticks w)).
Proof.
  intros H (data & Hs & He).
  assert (He' : expires_at env (cooldown_checked env req w) (pending_path env req) e).
  { exists data. now rewrite stored_pending_after_cooldown_check. }
  apply (remaining_zero_lapsed _ _ _ H) in He'.
  destruct (ticks_cooldown_checked env req w) as [Ht|Ht]; rewrite Ht in He'; auto.
Qed.

(** Every run of the route either answered at a gate, with 400 or 429
    and events of the gates only, or was eligible and went on from the
    world [pending_set] to read [claimAmount]. *)
Lemma claim_anatomy req w resp w' :
  claim env req w = (Ok resp, w') ->
  (grows_gated (lock_path env req) w w'
   /\ (status resp = 400 \/ status resp = 429)
   /\ assoc "success" (body resp) = Some (JBool false))
  \/ (eligible env req w
      /\ match claimAmount (faucet_of env req) with
         | Ok _ =>
             match settle env req (quoted env req w) with
             | (Ok r, w'') => (Ok r, w'')
             | (Throw e, w'') => (Ok (failure_response e), w'')
             end = (Ok resp, w')
         | Throw e => resp = failure_response e /\ w' = quoted env req w
         end).
Proof.
  rewrite claim_eq, gates_run. intros Hrun.
  destruct (truthy_str (body_captchaToken req)) eqn:Ht; cbn [negb] in Hrun.
  2:{ injection Hrun as <- <-. left. split; [apply gated_refl|]. split; [now left|reflexivity]. }
  destruct (verdict env _ _) eqn:Hv; cbn [negb] in Hrun.
  2:{ injection Hrun as <- <-. left. split; [apply gated_verified|].
      split; [now left|reflexivity]. }
  rewrite remaining_verified in Hrun.
  destruct (Z.gtb_spec (remaining env w (lock_path env req)) 0) as [Hr|Hr].
  { injection Hrun as <- <-. left. split; [apply gated_cooldown_checked|].
    split; [now right|reflexivity]. }
  destruct (Z.gtb_spec (remaining env (cooldown_checked env req w)
                                  (pending_path env req)) 0) as [Hp|Hp].
  { injection Hrun as <- <-. left. split; [apply gated_pending_checked|].
    split; [now right|reflexivity]. }
  destruct (negb (truthy_looked (rpcUrl_of env req))
            || negb (truthy_looked (contract_of req))) eqn:Hn.
  { injection Hrun as <- <-. left. split; [apply gated_pending_set|].
    split; [now left|reflexivity]. }
  destruct (negb (ethers_isAddress env (body_recipient req))) eqn:Ha.
  { injection Hrun as <- <-. left. split; [apply gated_pending_set|].
    split; [now left|reflexivity]. }
  right. split.
  - apply orb_false_elim in Hn. destruct Hn as [H1 H2].
    apply negb_false_iff in H1, H2, Ha.
    split; [|split; [|split; [|repeat split; assumption]]].
    + split; [exact Ht|]. now rewrite verifyHCaptcha_run, Hv.
    + intros e. now apply remaining_zero_lapsed.
    + intros e. now apply pending_zero_lapsed.
  - destruct (claimAmount _); [exact Hrun|]. now injection Hrun as <- <-.
Qed.

End Anatomy.

Section Answers.

Context (env : Env).

Lemma settle_answer req w r w' :
  settle env req w = (r, w') ->
  match r with
  | Ok resp =>
      (exists hash, dispatch (faucet_of env req) (body_recipient req) = Ok hash
                    /\ resp = success_response hash
                    /\ w' = promoted env req hash w)
      \/ (exists wait, resp = wait_response 400 wait)
  | Throw _ => True
  end.
Proof.
  rewrite settle_run. cbv zeta.
  destruct (dispatch _ _) as [hash|e].
  - intros [= <- <-]. left. eauto.
  - destruct (is_wait_rejection e); [|now intros [= <- _]].
    destruct (lastClaim _ _); [|now intros [= <- _]].
    destruct (cooldown _); [|now intros [= <- _]].
    intros [= <- _]. right. eauto.
Qed.

(** X7 (the [/claim] route). Every request is answered: no exception
    leaves the route, the status is 200, 400, 429 or 500, and the body's
    [success] is [true] exactly when the status is 200. *)
Theorem route_always_answers req w :
  exists resp w',
    claim env req w = (Ok resp, w')
    /\ (status resp = 200 \/ status resp = 400 \/ status resp = 429 \/ status resp = 500)
    /\ assoc "success" (body resp) = Some (JBool (status resp =? 200)).
Proof.
  destruct (claim_total env req w) as (resp & w' & Hrun). exists resp, w'.
  split; [exact Hrun|].
  destruct (claim_anatomy env _ _ _ _ Hrun) as [(_ & Hs & Hb) | (_ & Hc)].
  - destruct Hs as [Hs|Hs]; rewrite Hs, Hb; auto.
  - destruct (claimAmount _).
    + destruct (settle env req _) as [[r|e] w2] eqn:Hs.
      * injection Hc as <- _. apply settle_answer in Hs.
        destruct Hs as [(hash & _ & -> & _) | (wait & ->)]; cbn; auto.
      * injection Hc as <- _. cbn. auto 6.
    + destruct Hc as [-> _]. cbn. auto 6.
Qed.

(** X8 (the [/claim] route). A 200 is given only to a request that
    got past every gate (captcha, both locks, network tables, address
    check), after [claimAmount] was read and [adminClaimFor] was sent and
    confirmed; the response carries the hash of that transaction. *)
Theorem success_needs_a_confirmed_dispatch req w resp w' :
  claim env req w = (Ok resp, w') ->
  status resp = 200 ->
  eligible env req w
  /\ (exists amount, claimAmount (faucet_of env req) = Ok amount)
  /\ exists hash,
       dispatch (faucet_of env req) (body_recipient req) = Ok hash
       /\ resp = mkResponse 200 [("success", JBool true); ("txHash", JStr hash)].
Proof.
  intros Hrun H200.
  destruct (claim_anatomy env _ _ _ _ Hrun) as [(_ & Hs & _) | (Ha & Hc)].
  { destruct Hs as [Hs|Hs]; rewrite Hs in H200; discriminate. }
  split; [exact Ha|].
  destruct (claimAmount _) as [amount|e].
  - split; [eauto|].
    destruct (settle env req _) as [[r|e] w2] eqn:Hs.
    + injection Hc as <- _. apply settle_answer in Hs.
      destruct Hs as [(hash & Hd & -> & _) | (wait & ->)]; [eauto | discriminate].
    + injection Hc as <- _. discriminate.
  - destruct Hc as [-> _]. discriminate.
Qed.

Lemma gate_event_quiet p d : forallb (gate_event p) d = true -> quiet d.
Proof.
  unfold quiet. induction d as [|ev d IH]; cbn [forallb]; [constructor|].
  intros H. apply andb_true_iff in H. destruct H as [H1 H2].
  constructor; [|now apply IH].
  unfold gate_event in H1. apply andb_true_iff in H1. destruct H1 as [H1 _].
  now apply negb_true_iff in H1.
Qed.

(** X9 (the [/claim] route). A run that calls the chain at all is the
    run of a request that got past every gate. *)
Theorem chain_is_called_for_eligible_requests_only req w resp w' :
  claim env req w = (Ok resp, w') ->
  (exists ev, In ev (events_since w w') /\ is_chain_call ev = true) ->
  eligible env req w.
Proof.
  intros Hrun (ev & Hin & Hc).
  destruct (claim_anatomy env _ _ _ _ Hrun) as [((d & Hd & Hg) & _) | (Ha & _)];
    [|exact Ha].
  rewrite (events_since_app _ _ _ Hd) in Hin.
  apply gate_event_quiet in Hg. unfold quiet in Hg. rewrite List.Forall_forall in Hg.
  rewrite (Hg _ Hin) in Hc. discriminate Hc.
Qed.

End Answers.

Section Traces.

Context (env : Env).

Lemma gate_event_no_dispatch p d :
  forallb (gate_event p) d = true -> List.filter is_dispatch d = [].
Proof.
  induction d as [|ev d IH]; cbn [forallb]; [reflexivity|].
  intros H. apply andb_true_iff in H. destruct H as [H1 H2].
  cbn [List.filter]. rewrite (IH H2).
  unfold gate_event in H1. apply andb_true_iff in H1. destruct H1 as [H1 _].
  apply negb_true_iff in H1. now destruct ev as [| | | | |u a []].
Qed.

Lemma gate_event_no_write p d data :
  forallb (gate_event p) d = true -> ~ In (EvWriteFile p data) d.
Proof.
  induction d as [|ev d IH]; cbn [forallb]; [now intros _ []|].
  intros H. apply andb_true_iff in H. destruct H as [H1 H2].
  intros [-> | Hin]; [|now apply IH].
  unfold gate_event in H1. cbn in H1. now rewrite String.eqb_refl in H1.
Qed.

Lemma settle_trace req w r w' :
  settle env req w = (r, w') ->
  exists ds,
    trace w' = trace w ++ ds
    /\ length (List.filter is_dispatch ds) = 1%nat
    /\ forall data, In (EvWriteFile (lock_path env req) data) ds ->
                    exists hash, r = Ok (success_response hash).
Proof.
  rewrite settle_run. cbv zeta.
  unfold dispatch, promoted, refused, after_clear, after_write, tick, logged,
    dispatch_events, chain.
  cbn [trace files ticks].
  destruct (adminClaimFor _ _) as [tx|e].
  - destruct (tx_wait tx) as [[]|e].
    + intros [= <- <-]. eexists. split; [rewrite <- !app_assoc; reflexivity|].
      split; [reflexivity|]. eauto.
    + destruct (is_wait_rejection e).
      * destruct (lastClaim _ _) as [last|e'].
        -- destruct (cooldown _) as [cd|e'].
           ++ intros [= <- <-]. eexists. split; [rewrite <- !app_assoc; reflexivity|].
              split; [reflexivity|]. cbn. intuition discriminate.
           ++ intros [= <- <-]. eexists. split; [rewrite <- !app_assoc; reflexivity|].
              split; [reflexivity|]. cbn. intuition discriminate.
        -- intros [= <- <-]. eexists. split; [rewrite <- !app_assoc; reflexivity|].
           split; [reflexivity|]. cbn. intuition discriminate.
      * intros [= <- <-]. eexists. split; [rewrite <- !app_assoc; reflexivity|].
        split; [reflexivity|]. cbn. intuition discriminate.
  - destruct (is_wait_rejection e).
    * destruct (lastClaim _ _) as [last|e'].
      -- destruct (cooldown _) as [cd|e'].
         ++ intros [= <- <-]. eexists. split; [rewrite <- !app_assoc; reflexivity|].
            split; [reflexivity|]. cbn. intuition discriminate.
         ++ intros [= <- <-]. eexists. split; [rewrite <- !app_assoc; reflexivity|].
            split; [reflexivity|]. cbn. intuition discriminate.
      -- intros [= <- <-]. eexists. split; [rewrite <- !app_assoc; reflexivity|].
         split; [reflexivity|]. cbn. intuition discriminate.
    * intros [= <- <-]. eexists. split; [rewrite <- !app_assoc; reflexivity|].
      split; [reflexivity|]. cbn. intuition discriminate.
Qed.

(** X10 (the [/claim] route). One run sends [adminClaimFor] at most
    once, and writes the cooldown record of its client and network only
    when it answers 200. *)
Theorem one_dispatch_and_cooldown_on_success_only req w resp w' :
  claim env req w = (Ok resp, w') ->
  (length (List.filter is_dispatch (events_since w w')) <= 1)%nat
  /\ forall data,
       In (EvWriteFile (lock_path env req) data) (events_since w w') ->
       status resp = 200.
Proof.
  intros Hrun.
  destruct (claim_anatomy env _ _ _ _ Hrun) as [((d & Hd & Hg) & _) | (_ & Hc)].
  { rewrite (events_since_app _ _ _ Hd). split.
    - rewrite (gate_event_no_dispatch _ _ Hg). cbn. lia.
    - intros data Hin. now apply (gate_event_no_write _ _ data Hg) in Hin. }
  destruct (gated_pending_set env req w) as (dg & Hdg & Hg).
  assert (Hq : trace (quoted env req w)
               = trace w ++ (dg ++ [chain env req CallClaimAmount])).
  { unfold quoted, logged. cbn [trace]. now rewrite Hdg, app_assoc. }
  destruct (claimAmount _).
  2:{ destruct Hc as [-> ->]. rewrite (events_since_app _ _ _ Hq). split.
      - rewrite List.filter_app, (gate_event_no_dispatch _ _ Hg). cbn. lia.
      - intros data Hin. apply in_app_or in Hin. destruct Hin as [Hin | [Hin | []]].
        + now apply (gate_event_no_write _ _ data Hg) in Hin.
        + discriminate Hin. }
  destruct (settle env req _) as [r w2] eqn:Hs.
  destruct (settle_trace _ _ _ _ Hs) as (ds & Hds & Hone & Hwr).
  assert (Hw' : w' = w2) by (destruct r; now injection Hc).
  subst w2.
  assert (Ht : trace w' = trace w ++ ((dg ++ [chain env req CallClaimAmount]) ++ ds)).
  { now rewrite Hds, Hq, <- !app_assoc. }
  rewrite (events_since_app _ _ _ Ht). split.
  - rewrite !List.filter_app, (gate_event_no_dispatch _ _ Hg), !length_app, Hone.
    cbn. lia.
  - intros data Hin. apply in_app_or in Hin. destruct Hin as [Hin | Hin].
    + apply in_app_or in Hin. destruct Hin as [Hin | [Hin | []]].
      * now apply (gate_event_no_write _ _ data Hg) in Hin.
      * discriminate Hin.
    + destruct (Hwr _ Hin) as (hash & ->). now injection Hc as <-.
Qed.

End Traces.

Section Compose.

Context (env : Env).

Lemma inherited_lookup table name :
  In name Object_prototype ->
  assoc name table = None ->
  lookup table (Some name) = LBuiltin name.
Proof.
  intros Hin Ha. unfold lookup. cbn [template from_option]. unfold id. cbv zeta.
  rewrite Ha.
  assert (H : existsb (String.eqb name) Object_prototype = true).
  { apply existsb_exists. exists name. split; [exact Hin | apply String.eqb_refl]. }
  now rewrite H.
Qed.

Lemma inherited_not_configured name :
  In name Object_prototype ->
  assoc name (RPC env) = None /\ assoc name FAUCET_CONTRACTS = None.
Proof.
  intros Hin. unfold Object_prototype in Hin. cbn [In] in Hin.
  repeat (destruct Hin as [<- | Hin]; [split; reflexivity|]). destruct Hin.
Qed.

(** X11 (the [/claim] route). A network name that every object
    inherits from [Object.prototype] ([constructor], [toString], ...)
    finds a truthy entry in both tables, so the route never answers
    "Invalid network" to it. *)
Theorem inherited_names_pass_the_network_check req name resp w w' :
  body_network req = Some name ->
  In name Object_prototype ->
  claim env req w = (Ok resp, w') ->
  rpcUrl_of env req = LBuiltin name
  /\ contract_of req = LBuiltin name
  /\ resp <> invalid_network.
Proof.
  intros Hn Hin Hrun.
  destruct (inherited_not_configured _ Hin) as [H1 H2].
  assert (Hr : rpcUrl_of env req = LBuiltin name)
    by (unfold rpcUrl_of; rewrite Hn; now apply inherited_lookup).
  assert (Hc : contract_of req = LBuiltin name)
    by (unfold contract_of; rewrite Hn; now apply inherited_lookup).
  split; [exact Hr|]. split; [exact Hc|].
  rewrite claim_eq, gates_run, Hr, Hc in Hrun. cbn [truthy_looked negb orb] in Hrun.
  destruct (negb (truthy_str _)); [injection Hrun as <- _; discriminate|].
  destruct (negb (verdict env _ _)); [injection Hrun as <- _; discriminate|].
  destruct (_ >? 0); [injection Hrun as <- _; discriminate|].
  destruct (_ >? 0); [injection Hrun as <- _; discriminate|].
  destruct (negb (ethers_isAddress env _)); [injection Hrun as <- _; discriminate|].
  destruct (claimAmount _); [|injection Hrun as <- _; discriminate].
  destruct (settle env req _) as [[r|e] w2] eqn:Hs.
  - injection Hrun as <- _. apply settle_answer in Hs.
    destruct Hs as [(hash & _ & -> & _) | (wait & ->)]; discriminate.
  - injection Hrun as <- _. discriminate.
Qed.

Lemma cooldown_meta_has_no_expiry req hash :
  assoc "expiresAt" (cooldown_meta req hash) = None.
Proof. reflexivity. Qed.

(** X12 (the [/claim] route with [setIpCooldown] and [getIpCooldown]).
    After a claim that was answered 200, a request from the same client
    address for the same network that passes the captcha within 24 hours
    of the record's expiry base is answered 429 with the time left in
    seconds, rounded up, whatever recipient it names, and nothing goes
    to the chain. [S n] is the clock reading [setIpCooldown] took for
    [expiresAt], the last but one of the first run. *)
Theorem claimed_client_is_turned_away req w hash w1 n req2 :
  claim env req w = (Ok (success_response hash), w1) ->
  ticks w1 = S (S n) ->
  fs_denied env OpWrite (lock_path env req) = false ->
  fs_denied env OpRead (lock_path env req) = false ->
  codec_keeps_expiry env
    (payload (clock env n) (clock env (S n)) COOLDOWN_MS (cooldown_meta req hash)) ->
  getClientIp env req2 = getClientIp env req ->
  body_network req2 = body_network req ->
  passes_captcha env req2 w1 ->
  clock env (ticks w1) < clock env (S n) + 86400000 ->
  exists w2,
    claim env req2 w1
    = (Ok (wait_response 429
             (Math_ceil_div (clock env (S n) + 86400000 - clock env (ticks w1)) 1000)),
       w2)
    /\ quiet (events_since w1 w2).
Proof.
  intros Hrun Hn Hw Hr (data & Hp & He) Hip Hnet Hc Hlt.
  assert (Hw1 : w1 = promoted env req hash (quoted env req w)).
  { destruct (claim_anatomy env _ _ _ _ Hrun) as [(_ & Hs & _) | (_ & Hq)].
    { destruct Hs as [Hs|Hs]; discriminate Hs. }
    destruct (claimAmount _); [|destruct Hq as [Hq _]; discriminate Hq].
    destruct (settle env req _) as [[r|e'] w2] eqn:Hs; [|discriminate Hq].
    injection Hq as -> ->. apply settle_answer in Hs.
    destruct Hs as [(h & _ & Hh & ->) | (wait & Hh)]; [|discriminate Hh].
    now injection Hh as <-. }
  assert (Hticks : ticks (quoted env req w) = n).
  { rewrite Hw1 in Hn. unfold promoted, after_clear, after_write in Hn.
    cbn [ticks logged] in Hn. congruence. }
  assert (Hexp : expires_at env w1 (lock_path env req2) (clock env (S n) + 86400000)).
  { replace (lock_path env req2) with (lock_path env req)
      by (unfold lock_path; now rewrite Hip, Hnet).
    exists data. split.
    - unfold stored. rewrite Hr, Hw1. unfold promoted, after_clear, after_write.
      cbn [files logged]. rewrite Hw.
      assert (Hf : forall m : gmap string string,
                 (if fs_denied env OpUnlink (pending_path env req)
                  then m else delete (pending_path env req) m) !! lock_path env req
                 = m !! lock_path env req).
      { intros m. destruct (fs_denied env OpUnlink _); [reflexivity|].
        apply lookup_delete_ne, not_eq_sym, lock_pending_paths_differ. }
      rewrite Hf, lookup_insert_eq. unfold written.
      change (ticks (logged (dispatch_events env req) (quoted env req w)))
        with (ticks (quoted env req w)). rewrite Hticks.
      exact Hp.
    - rewrite He. now apply expiry_payload. }
  exists (cooldown_checked env req2 w1). split.
  - rewrite claim_eq, (gates_verified env _ _ Hc).
    rewrite (remaining_expires_at env _ _ _ Hexp).
    replace (Z.max 0 (clock env (S n) + 86400000 - clock env (ticks w1)))
      with (clock env (S n) + 86400000 - clock env (ticks w1)) by lia.
    match goal with |- context [?a >? 0] => destruct (Z.gtb_spec a 0) end;
      [reflexivity | lia].
  - apply grows_events, grows_cooldown_checked.
Qed.

End Compose.

Section Contract.

Import NativeFaucet.

Context (accepts : Z -> bool).

Lemma send_cases s to amount s' :
  send accepts s to amount = Some s' ->
  amount <= balance s
  /\ (s' = s \/ s' = with_balance s (balance s - amount)).
Proof.
  unfold send. destruct (Z.ltb_spec (balance s) amount); [discriminate|].
  destruct (to =? self s); [intros [= <-]; auto|].
  destruct (accepts to); [intros [= <-]; auto | discriminate].
Qed.

Lemma sound_intro s now :
  0 < claimAmount s -> 0 < cooldown s -> owner s <> 0 -> 0 <= balance s ->
  0 <= now ->
  (forall a t, lastClaim s !! a = Some t -> 0 <= t <= now) ->
  sound s now.
Proof. unfold sound. intuition. Qed.

Lemma pay_sound s now m user s' logs :
  sound s now -> now <= timestamp m ->
  pay accepts s m user = Done s' logs -> sound s' (timestamp m).
Proof.
  intros (Ha & Hc & Ho & Hb & H0 & Hl) Hnow. unfold pay, require.
  destruct (Z.ltb_spec (timestamp m) (last s user)) as [|Hge]; [discriminate|].
  destruct (_ >=? cooldown s); [|discriminate].
  destruct (Z.geb_spec (balance s) (claimAmount s)); [|discriminate]. cbv zeta.
  destruct (send _ _ _ _) as [s2|] eqn:Hsend; [|discriminate].
  intros [= <- _]. apply send_cases in Hsend. cbn in Hsend.
  assert (Hlast : forall a t,
             <[user := timestamp m]> (lastClaim s) !! a = Some t ->
             0 <= t <= timestamp m).
  { intros a t. destruct (decide (user = a)) as [->|Hne].
    - rewrite lookup_insert_eq. intros [= <-]. unfold last in Hge.
      destruct (lastClaim s !! a) as [t|] eqn:E; cbn in Hge.
      + specialize (Hl _ _ E). lia.
      + lia.
    - rewrite lookup_insert_ne by assumption. intros E.
      specialize (Hl _ _ E). lia. }
  destruct Hsend as [Hle [-> | ->]]; apply sound_intro; cbn; try assumption; lia.
Qed.

Lemma pay_no_panic s now m user code :
  sound s now -> now <= timestamp m -> pay accepts s m user <> Panic code.
Proof.
  intros (Ha & Hc & Ho & Hb & H0 & Hl) Hnow. unfold pay, require.
  destruct (Z.ltb_spec (timestamp m) (last s user)) as [Hlt|_].
  - exfalso. unfold last in Hlt.
    destruct (lastClaim s !! user) as [t|] eqn:E; cbn in Hlt.
    + specialize (Hl _ _ E). lia.
    + lia.
  - destruct (_ >=? _); [|discriminate]. destruct (_ >=? _); [|discriminate].
    cbv zeta. destruct (send _ _ _ _); discriminate.
Qed.

(** X13 ([NativeFaucet]). The constructor establishes, and every call
    that returns keeps: a positive [claimAmount] and [cooldown], an owner
    that is not the zero address, a balance that is not negative, and no
    [lastClaim] later than the block time. In such a state, with a block
    time that does not go back, no call panics on the subtraction
    [block.timestamp - lastClaim[a]]. *)
Theorem faucet_invariant :
  (forall this m value amount cd s logs,
     constructor this m value amount cd = Done s logs ->
     sender m <> 0 -> 0 <= value -> 0 <= timestamp m ->
     sound s (timestamp m))
  /\ (forall s now m c s' logs,
        sound s now -> now <= timestamp m -> unsigned c ->
        exec accepts s m c = Done s' logs ->
        sound s' (timestamp m))
  /\ (forall s now m c,
        sound s now -> now <= timestamp m ->
        forall code, exec accepts s m c <> Panic code).
Proof.
  split; [|split].
  - intros this m value amount cd s logs. unfold constructor, require.
    destruct (Z.gtb_spec amount 0); [|discriminate].
    destruct (Z.gtb_spec cd 0); [|discriminate].
    intros [= <- _] Hs Hv Ht. apply sound_intro; cbn; try assumption; try lia.
    intros a t. rewrite lookup_empty. discriminate.
  - intros s now m c s' logs Hsound Hnow Hu.
    pose proof Hsound as (Ha & Hc & Ho & Hb & H0 & Hl).
    assert (Hl' : forall a t, lastClaim s !! a = Some t -> 0 <= t <= timestamp m).
    { intros a t H. specialize (Hl a t H). lia. }
    destruct c; cbn [exec]; unfold onlyOwner, notPaused, require.
    + destruct (negb (paused s)); [apply (pay_sound _ _ _ _ _ _ Hsound Hnow) | discriminate].
    + destruct (sender m =? owner s); [|discriminate].
      destruct (negb (paused s)); [|discriminate].
      destruct (negb (recipient =? 0));
        [apply (pay_sound _ _ _ _ _ _ Hsound Hnow) | discriminate].
    + destruct (sender m =? owner s); [|discriminate].
      destruct (Z.gtb_spec newAmount 0); [|discriminate].
      intros [= <- _]. apply sound_intro; cbn; try assumption; lia.
    + destruct (sender m =? owner s); [|discriminate].
      destruct (Z.gtb_spec newCooldown 0); [|discriminate].
      intros [= <- _]. apply sound_intro; cbn; try assumption; lia.
    + destruct (sender m =? owner s); [|discriminate].
      intros [= <- _]. apply sound_intro; cbn; try assumption; lia.
    + destruct (sender m =? owner s); [|discriminate].
      destruct (Z.eqb_spec newOwner 0); [discriminate|]. cbn [negb].
      intros [= <- _]. apply sound_intro; cbn; try assumption; lia.
    + destruct (sender m =? owner s); [|discriminate].
      destruct (send _ _ _ _) as [s2|] eqn:Hsend; [|discriminate].
      intros [= <- _]. apply send_cases in Hsend. cbn in Hu.
      destruct Hsend as [Hle [-> | ->]]; apply sound_intro; cbn; try assumption; lia.
    + intros [= <- _]. cbn in Hu. apply sound_intro; cbn; try assumption; lia.
  - intros s now m c Hsound Hnow code.
    destruct c; cbn [exec]; unfold onlyOwner, notPaused, require;
      repeat match goal with
             | |- context [if ?b then _ else _] => destruct b
             | |- context [match send ?a ?b ?c ?d with _ => _ end] =>
                 destruct (send a b c d)
             end; try discriminate; apply (pay_no_panic _ _ _ _ _ Hsound Hnow).
Qed.


Lemma pay_done s m user s' logs :
  pay accepts s m user = Done s' logs ->
  last s user <= timestamp m
  /\ cooldown s <= timestamp m - last s user
  /\ claimAmount s <= balance s
  /\ logs = [Claimed user (claimAmount s)]
  /\ lastClaim s' = <[user := timestamp m]> (lastClaim s)
  /\ balance s' = (if user =? self s then balance s else balance s - claimAmount s)
  /\ (user =? self s) || accepts user = true
  /\ settings s' = settings s /\ self s' = self s.
Proof.
  unfold pay, require.
  destruct (Z.ltb_spec (timestamp m) (last s user)); [discriminate|].
  destruct (Z.geb_spec (timestamp m - last s user) (cooldown s)); [|discriminate].
  destruct (Z.geb_spec (balance s) (claimAmount s)); [|discriminate]. cbv zeta.
  unfold send. cbn [balance claimAmount self].
  destruct (Z.ltb_spec (balance s) (claimAmount s)); [lia|].
  destruct (user =? self s).
  - intros [= <- <-]. cbn. repeat split; try assumption; lia.
  - destruct (accepts user); [|discriminate].
    intros [= <- <-]. cbn. repeat split; try assumption; lia.
Qed.

Lemma exec_done s m c s' logs :
  exec accepts s m c = Done s' logs ->
  match beneficiary m c with
  | Some user => pay accepts s m user = Done s' logs /\ paused s = false
                 /\ (c = Claim \/ sender m = owner s /\ user <> 0)
  | None => lastClaim s' = lastClaim s
            /\ existsb (fun l => match l with Claimed _ _ => true | _ => false end) logs = false
            /\ (privileged c = true -> sender m = owner s)
  end.
Proof.
  destruct c; cbn [exec beneficiary privileged]; unfold onlyOwner, notPaused, require.
  - destruct (paused s); cbn [negb]; [discriminate|]. auto.
  - destruct (Z.eqb_spec (sender m) (owner s)); [|discriminate].
    destruct (paused s); cbn [negb]; [discriminate|].
    destruct (Z.eqb_spec recipient 0); cbn [negb]; [discriminate|]. auto.
  - destruct (Z.eqb_spec (sender m) (owner s)); [|discriminate].
    destruct (newAmount >? 0); [|discriminate]. intros [= <- <-]. auto.
  - destruct (Z.eqb_spec (sender m) (owner s)); [|discriminate].
    destruct (newCooldown >? 0); [|discriminate]. intros [= <- <-]. auto.
  - destruct (Z.eqb_spec (sender m) (owner s)); [|discriminate].
    intros [= <- <-]. auto.
  - destruct (Z.eqb_spec (sender m) (owner s)); [|discriminate].
    destruct (negb (newOwner =? 0)); [|discriminate]. intros [= <- <-]. auto.
  - destruct (Z.eqb_spec (sender m) (owner s)); [|discriminate].
    destruct (send _ _ _ _) as [s2|] eqn:Hsend; [|discriminate].
    intros [= <- <-]. apply send_cases in Hsend.
    destruct Hsend as [_ [-> | ->]]; auto.
  - intros [= <- <-]. cbn. split; [reflexivity|]. split; [reflexivity|]. discriminate.
Qed.

(** X14 ([onlyOwner]). A caller other than the owner gets "Not owner"
    from [adminClaimFor], [setClaimAmount], [setCooldown], [setPaused],
    [transferOwnership] and [withdraw], and whatever it calls with success
    leaves owner, [claimAmount], [cooldown] and [paused] as they were. *)
Theorem only_the_owner_configures s m c :
  sender m <> owner s ->
  (privileged c = true -> exec accepts s m c = Revert "Not owner")
  /\ forall s' logs, exec accepts s m c = Done s' logs -> settings s' = settings s.
Proof.
  intros Hne. split.
  - destruct c; cbn [privileged exec]; try discriminate; intros _;
      unfold onlyOwner, require;
      (destruct (Z.eqb_spec (sender m) (owner s)); [contradiction | reflexivity]).
  - intros s' logs H. pose proof (exec_done _ _ _ _ _ H) as Hd.
    destruct c; cbn [beneficiary privileged] in Hd;
      try (destruct Hd as (_ & _ & Ho); specialize (Ho eq_refl); contradiction).
    + destruct Hd as (Hp & _). apply pay_done in Hp. tauto.
    + destruct Hd as (_ & _ & [Habs | [Ho _]]); [discriminate | contradiction].
    + cbn in H. injection H as <- _. reflexivity.
Qed.

(** X15 ([claim], [adminClaimFor]). A claim that returns was made
    while the faucet was not paused, its cooldown had passed for the
    recipient and the balance covered [claimAmount]. It emits one
    [Claimed], takes [claimAmount] from the balance (nothing when the
    faucet pays itself), sets the recipient's [lastClaim] to the block
    time and changes neither another address's [lastClaim] nor a
    setting. *)
Theorem claim_pays_once_and_records_it s m c user s' logs :
  beneficiary m c = Some user ->
  exec accepts s m c = Done s' logs ->
  (paused s = false /\ cooldown s <= timestamp m - last s user
   /\ claimAmount s <= balance s)
  /\ logs = [Claimed user (claimAmount s)]
  /\ balance s' = (if user =? self s then balance s else balance s - claimAmount s)
  /\ last s' user = timestamp m
  /\ (forall a, a <> user -> last s' a = last s a)
  /\ settings s' = settings s.
Proof.
  intros Hb H. pose proof (exec_done _ _ _ _ _ H) as Hd. rewrite Hb in Hd.
  destruct Hd as (Hp & Hpaused & _). apply pay_done in Hp.
  destruct Hp as (_ & Hcd & Hbal & -> & Hl & Hb' & _ & Hset & _).
  repeat split; try assumption.
  - unfold last. rewrite Hl, lookup_insert_eq. reflexivity.
  - intros a Ha. unfold last. rewrite Hl, lookup_insert_ne by congruence. reflexivity.
Qed.

Lemma step_last s tx user :
  (existsb (is_claimed_by user) (snd (step accepts s tx)) = true ->
   cooldown s <= timestamp (fst tx) - last s user
   /\ last (fst (step accepts s tx)) user = timestamp (fst tx))
  /\ (existsb (is_claimed_by user) (snd (step accepts s tx)) = false ->
      last (fst (step accepts s tx)) user = last s user).
Proof.
  unfold step. destruct (exec accepts s (fst tx) (snd tx)) as [s' logs| |] eqn:H;
    cbn [fst snd existsb]; try (split; [discriminate | reflexivity]).
  pose proof (exec_done _ _ _ _ _ H) as Hd.
  destruct (beneficiary (fst tx) (snd tx)) as [u|].
  - destruct Hd as (Hp & _). apply pay_done in Hp.
    destruct Hp as (_ & Hcd & _ & -> & Hl & _). cbn [existsb is_claimed_by].
    rewrite orb_false_r. unfold last. rewrite Hl.
    destruct (Z.eqb_spec u user) as [->|Hne].
    + split; [|discriminate]. intros _. rewrite lookup_insert_eq. split; [assumption|reflexivity].
    + split; [discriminate|]. intros _. rewrite lookup_insert_ne by assumption. reflexivity.
  - destruct Hd as (Hl & Hno & _). unfold last. rewrite Hl.
    assert (Hnone : existsb (is_claimed_by user) logs = false).
    { clear -Hno. induction logs as [|l logs IH]; [reflexivity|].
      cbn in Hno |- *. destruct l; cbn in Hno |- *; try discriminate; auto. }
    rewrite Hnone. split; [discriminate | reflexivity].
Qed.

(** X16 ([claim], [adminClaimFor]). Over any sequence of
    transactions, every payout to an address comes at least the cooldown
    then in force after the payout to it before (for the first, after the
    [lastClaim] the sequence started with). *)
Theorem payouts_are_a_cooldown_apart user txs :
  forall s, spaced (last s user) (payouts accepts user s txs).
Proof.
  induction txs as [|tx rest IH]; intros s; [exact I|].
  cbn [payouts]. destruct (step_last s tx user) as [Hyes Hno].
  destruct (existsb _ _).
  - destruct (Hyes eq_refl) as [Hcd Hl]. cbn [app spaced]. split; [assumption|].
    rewrite <- Hl. apply IH.
  - cbn [app]. rewrite <- (Hno eq_refl). apply IH.
Qed.

(** X17 ([adminClaimFor]). After a payout to a user, the owner's
    next [adminClaimFor] for that user before the cooldown has passed
    reverts with "Wait before next claim", and
    [lastClaim + cooldown - now], which the server reports as the wait,
    is positive; from [lastClaim + cooldown] on the call no longer
    reverts for that reason. *)
Theorem refused_claim_names_a_positive_wait s m c user s1 logs m2 :
  beneficiary m c = Some user ->
  exec accepts s m c = Done s1 logs ->
  sender m2 = owner s1 -> user <> 0 ->
  timestamp m <= timestamp m2 ->
  (timestamp m2 < timestamp m + cooldown s1 ->
   exec accepts s1 m2 (AdminClaimFor user) = Revert "Wait before next claim"
   /\ 0 < last s1 user + cooldown s1 - timestamp m2)
  /\ (timestamp m + cooldown s1 <= timestamp m2 ->
      exec accepts s1 m2 (AdminClaimFor user) <> Revert "Wait before next claim").
Proof.
  intros Hb H Ho Hu Hle. pose proof (exec_done _ _ _ _ _ H) as Hd. rewrite Hb in Hd.
  destruct Hd as (Hp & Hpaused & _). apply pay_done in Hp.
  destruct Hp as (_ & _ & _ & _ & Hl & _ & _ & Hset & _).
  assert (Hlast : last s1 user = timestamp m).
  { unfold last. rewrite Hl, lookup_insert_eq. reflexivity. }
  assert (Hrun : paused s1 = false).
  { unfold settings in Hset. injection Hset as _ _ _ ->. exact Hpaused. }
  cbn [exec]. unfold onlyOwner, notPaused, require, pay.
  rewrite Hlast, Ho, Z.eqb_refl, Hrun.
  destruct (Z.eqb_spec user 0); [contradiction|]. cbn [negb].
  destruct (Z.ltb_spec (timestamp m2) (timestamp m)); [lia|].
  split.
  - intros Hlt. split; [|lia].
    destruct (Z.geb_spec (timestamp m2 - timestamp m) (cooldown s1)); [lia|reflexivity].
  - intros Hge.
    destruct (Z.geb_spec (timestamp m2 - timestamp m) (cooldown s1)); [|lia].
    destruct (_ >=? _); [|discriminate].
    destruct (send _ _ _ _); discriminate.
Qed.

(** X18 ([withdraw]). The owner's withdrawal of more than the balance
    reverts with "Withdraw failed". A withdrawal that returns was called
    by the owner for no more than the balance, takes exactly that amount
    (nothing when the owner is the faucet), leaves every [lastClaim] and
    setting as it was and emits no event. *)
Theorem withdraw_never_overdraws s m amount :
  (sender m = owner s -> balance s < amount ->
   exec accepts s m (Withdraw amount) = Revert "Withdraw failed")
  /\ forall s' logs, exec accepts s m (Withdraw amount) = Done s' logs ->
       sender m = owner s /\ amount <= balance s
       /\ balance s' = (if owner s =? self s then balance s else balance s - amount)
       /\ lastClaim s' = lastClaim s /\ settings s' = settings s /\ logs = [].
Proof.
  cbn [exec]. unfold onlyOwner, require, send. split.
  - intros -> Hlt. rewrite Z.eqb_refl.
    destruct (Z.ltb_spec (balance s) amount); [reflexivity | lia].
  - intros s' logs. destruct (Z.eqb_spec (sender m) (owner s)); [|discriminate].
    destruct (Z.ltb_spec (balance s) amount); [discriminate|].
    destruct (owner s =? self s).
    + intros [= <- <-]. repeat split; try assumption; lia.
    + destruct (accepts (owner s)); [|discriminate].
      intros [= <- <-]. repeat split; try assumption; lia.
Qed.

End Contract.

Section Legacy.

Variable env : Env.

Ltac run_route :=
  repeat (cbn [fst snd ticks files trace]; match goal with
         | |- context [match ?r with Ok _ => _ | Throw _ => _ end] =>
             destruct r eqn:?
         | |- context [if ?b then _ else _] => destruct b eqn:?
         end).

Ltac settle_route :=
  cbn [fst snd files trace ticks];
  split; [reflexivity|];
  split;
  [ eexists; split;
    [ rewrite <- ?app_assoc; first [reflexivity | symmetry; apply app_nil_r]
    | reflexivity ]
  | eexists; split; [reflexivity|]; cbn [status]; auto ].

(** X19 (the two routes of [server.js]). Both earlier routes answer
    from the chain alone: the response does not depend on the files, the
    files are left as they were, the run calls nothing but the chain, and
    the status is 200, 400 or 500, never 429. *)
Theorem earlier_routes_answer_from_the_chain :
  answers_from_chain (Aliased.claim env) /\ answers_from_chain (Unguarded.claim env).
Proof.
  split; intros req w.
  - unfold Aliased.claim, rpc, res_send, Date_now, try_catch, bind, emit, lift, ret, throw.
    cbv beta zeta. split.
    + intros w0 Hw. destruct w0 as [f0 t0 tr0], w as [f t tr].
      cbn [ticks] in Hw. subst t0. cbn [ticks files trace].
      run_route; reflexivity.
    + run_route; settle_route.
  - unfold Unguarded.claim, rpc, res_send, Date_now, try_catch, bind, emit, lift, ret, throw.
    cbv beta zeta. split.
    + intros w0 Hw. destruct w0 as [f0 t0 tr0], w as [f t tr].
      cbn [ticks] in Hw. subst t0. cbn [ticks files trace].
      run_route; reflexivity.
    + run_route; settle_route.
Qed.

(** X20 (the first route of [server.js]). A request whose network is
    none of [polygon], [amoy], [avax] and [fuji], inherited names
    included, is answered 400 "Invalid network" and leaves the world as
    it was: no call goes to the chain. *)
Theorem aliased_route_serves_listed_networks_only req w :
  names_alias req = false ->
  Aliased.claim env req w = (Ok invalid_network, w).
Proof.
  unfold names_alias. cbn [existsb]. rewrite !orb_false_iff.
  intros (Hp & Ha & Hv & Hf & _).
  assert (Hkey : lookup_at (Aliased.RPC env)
                   (lookup Aliased.NET_ALIASES (body_network req)) = LUndefined).
  { unfold lookup, Aliased.NET_ALIASES. cbn [assoc]. rewrite Hp, Ha, Hv, Hf.
    destruct (existsb _ Object_prototype); reflexivity. }
  unfold Aliased.claim, try_catch. cbv zeta. rewrite Hkey. cbn [truthy_looked negb].
  rewrite orb_true_r. reflexivity.
Qed.

End Legacy.

(** ** Runs of the further properties on the fixtures *)

Lemma client_ip_is_never_empty_witness :
  getClientIp Demo.env (with_ip Demo.good (Some "198.51.100.9"))
  = getClientIp Demo.env Demo.good.
Proof.
  apply (proj2 (client_ip_is_never_empty Demo.env Demo.good)). reflexivity.
Defined.

Lemma client_ip_drops_mapped_prefix_witness :
  getClientIp Demo.env (from_address Demo.good (Some ("::ffff:" +:+ "198.51.100.9")))
  = "198.51.100.9".
Proof.
  apply (proj1 (client_ip_drops_mapped_prefix Demo.env Demo.good "198.51.100.9"
                  ltac:(discriminate))).
  reflexivity.
Defined.

Lemma lock_written_then_read_witness :
  fst (getIpPending Demo.env Demo.ip (Some "sepolia")
         (snd (setIpPending Demo.env Demo.ip (Some "sepolia")
                 (pending_meta Demo.good) Demo.fresh)))
  = Ok 59750.
Proof.
  apply (proj1 (lock_written_then_read Demo.env Demo.ip (Some "sepolia")
                  (pending_meta Demo.good) Demo.fresh eq_refl));
    [reflexivity | reflexivity |].
  exists (JObj [("firstSeenAt", JNum 1700000000000);
                ("expiresAt", JNum 1700000060250);
                ("recipient", JStr Demo.address);
                ("network", JStr "sepolia")]).
  split; vm_compute; reflexivity.
Defined.

Lemma clearing_a_lock_is_idempotent_witness :
  fst (getIpCooldown Demo.env Demo.ip (Some "sepolia")
         (snd (clearIpCooldown Demo.env Demo.ip (Some "sepolia") Demo.claimed)))
  = Ok 0.
Proof.
  exact (proj1 (proj2 (proj2 (proj2 (proj2 (proj2
           (clearing_a_lock_is_idempotent Demo.env Demo.ip (Some "sepolia")
              Demo.claimed)))))) eq_refl).
Defined.

Lemma lock_operations_touch_one_file_witness :
  files (snd (clearIpPending Demo.env Demo.ip (Some "sepolia") Demo.claimed))
    !! lockPathFor Demo.env Demo.ip (Some "sepolia")
  = files Demo.claimed !! lockPathFor Demo.env Demo.ip (Some "sepolia").
Proof.
  apply (proj1 (lock_operations_touch_one_file Demo.env Demo.ip (Some "sepolia") []
                  Demo.claimed (lockPathFor Demo.env Demo.ip (Some "sepolia")))).
  apply lock_pending_paths_differ.
Defined.

Lemma run_of_fst {A} (m : M A) (w : World) (r : Result A) :
  fst (m w) = r -> m w = (r, snd (m w)).
Proof. intros <-. apply surjective_pairing. Qed.

Lemma first_claim_run :
  claim Demo.env Demo.good Demo.fresh
  = (Ok (success_response "0xfeedbeef"), Demo.claimed).
Proof. exact (run_of_fst _ _ _ first_claim_succeeds). Qed.

Lemma success_needs_a_confirmed_dispatch_witness :
  eligible Demo.env Demo.good Demo.fresh
  /\ (exists amount, claimAmount (faucet_of Demo.env Demo.good) = Ok amount)
  /\ exists hash,
       dispatch (faucet_of Demo.env Demo.good) (body_recipient Demo.good) = Ok hash
       /\ success_response "0xfeedbeef"
          = mkResponse 200 [("success", JBool true); ("txHash", JStr hash)].
Proof.
  apply (success_needs_a_confirmed_dispatch Demo.env Demo.good Demo.fresh
           (success_response "0xfeedbeef") Demo.claimed first_claim_run).
  reflexivity.
Defined.

Lemma chain_is_called_for_eligible_requests_only_witness :
  eligible Demo.env Demo.good Demo.fresh.
Proof.
  apply (chain_is_called_for_eligible_requests_only Demo.env Demo.good Demo.fresh
           (success_response "0xfeedbeef") Demo.claimed first_claim_run).
  exists (EvChain (LString "https://rpc.example/sepolia")
                  (LString "0x9c33b5Ad90570262A4b49abAFf47e4Ef7DeC3c08")
                  CallClaimAmount).
  split; [|reflexivity].
  vm_compute. repeat (first [left; reflexivity | right]).
Defined.

Lemma one_dispatch_and_cooldown_on_success_only_witness :
  (length (List.filter is_dispatch (events_since Demo.fresh Demo.claimed)) <= 1)%nat.
Proof.
  apply (proj1 (one_dispatch_and_cooldown_on_success_only Demo.env Demo.good Demo.fresh
                  (success_response "0xfeedbeef") Demo.claimed first_claim_run)).
Defined.

Example inherited_network_fails_later :
  fst (claim Demo.env inherited_network Demo.fresh)
  = Ok (mkResponse 500 [("success", JBool false);
                        ("error", JStr "url.clone is not a function")]).
Proof. vm_compute. reflexivity. Qed.

Lemma inherited_names_pass_the_network_check_witness :
  rpcUrl_of Demo.env inherited_network = LBuiltin "constructor"
  /\ contract_of inherited_network = LBuiltin "constructor"
  /\ mkResponse 500 [("success", JBool false);
                     ("error", JStr "url.clone is not a function")]
     <> invalid_network.
Proof.
  apply (inherited_names_pass_the_network_check Demo.env inherited_network "constructor"
           _ Demo.fresh _ eq_refl (or_introl eq_refl)
           (run_of_fst _ _ _ inherited_network_fails_later)).
Defined.

Lemma claimed_client_is_turned_away_witness :
  exists w2,
    claim Demo.env second_wallet Demo.claimed
    = (Ok (wait_response 429
             (Math_ceil_div (clock Demo.env 3 + 86400000
                             - clock Demo.env (ticks Demo.claimed)) 1000)), w2)
    /\ quiet (events_since Demo.claimed w2).
Proof.
  apply (claimed_client_is_turned_away Demo.env Demo.good Demo.fresh "0xfeedbeef"
           Demo.claimed 2%nat second_wallet first_claim_run).
  - vm_compute. reflexivity.
  - reflexivity.
  - reflexivity.
  - exists (JObj [("firstSeenAt", JNum 1700000000500);
                  ("expiresAt", JNum 1700086400750);
                  ("lastAddress", JStr Demo.address);
                  ("lastNetwork", JStr "sepolia");
                  ("txHash", JStr "0xfeedbeef")]).
    split; vm_compute; reflexivity.
  - vm_compute. reflexivity.
  - reflexivity.
  - split; vm_compute; reflexivity.
  - vm_compute. reflexivity.
Defined.

Lemma first_payout :
  NativeFaucet.exec Deployment.anyone Deployment.deployed
    (NativeFaucet.mkMsg Deployment.deployer 1700000100)
    (NativeFaucet.AdminClaimFor Deployment.user)
  = NativeFaucet.Done Deployment.paid
      [NativeFaucet.Claimed Deployment.user 10000000000000000].
Proof. vm_compute. reflexivity. Qed.

Lemma faucet_invariant_witness : NativeFaucet.sound Deployment.paid 1700000100.
Proof.
  assert (H : NativeFaucet.sound Deployment.deployed 1700000000).
  { apply (proj1 (faucet_invariant Deployment.anyone) 1000 Deployment.genesis
             5000000000000000000 10000000000000000 86400 Deployment.deployed []);
      [reflexivity | discriminate | discriminate | discriminate]. }
  apply (proj1 (proj2 (faucet_invariant Deployment.anyone))
           Deployment.deployed 1700000000
           (NativeFaucet.mkMsg Deployment.deployer 1700000100)
           (NativeFaucet.AdminClaimFor Deployment.user) Deployment.paid
           [NativeFaucet.Claimed Deployment.user 10000000000000000] H).
  - discriminate.
  - exact I.
  - exact first_payout.
Defined.

Lemma only_the_owner_configures_witness :
  NativeFaucet.exec Deployment.anyone Deployment.deployed
    (NativeFaucet.mkMsg Deployment.user 1700000100) (NativeFaucet.SetPaused true)
  = NativeFaucet.Revert "Not owner".
Proof.
  apply (proj1 (only_the_owner_configures Deployment.anyone Deployment.deployed
                  (NativeFaucet.mkMsg Deployment.user 1700000100)
                  (NativeFaucet.SetPaused true) ltac:(discriminate))).
  reflexivity.
Defined.

Lemma claim_pays_once_and_records_it_witness :
  NativeFaucet.balance Deployment.paid
  = NativeFaucet.balance Deployment.deployed - 10000000000000000
  /\ NativeFaucet.last Deployment.paid Deployment.user = 1700000100.
Proof.
  destruct (claim_pays_once_and_records_it Deployment.anyone Deployment.deployed
              (NativeFaucet.mkMsg Deployment.deployer 1700000100)
              (NativeFaucet.AdminClaimFor Deployment.user) Deployment.user
              Deployment.paid _ eq_refl first_payout)
    as (_ & _ & Hb & Hl & _).
  split; [exact Hb | exact Hl].
Defined.

Lemma refused_claim_names_a_positive_wait_witness :
  NativeFaucet.exec Deployment.anyone Deployment.paid
    (NativeFaucet.mkMsg Deployment.deployer 1700003700)
    (NativeFaucet.AdminClaimFor Deployment.user)
  = NativeFaucet.Revert "Wait before next claim"
  /\ 0 < NativeFaucet.last Deployment.paid Deployment.user
         + NativeFaucet.cooldown Deployment.paid - 1700003700.
Proof.
  apply (proj1 (refused_claim_names_a_positive_wait Deployment.anyone
                  Deployment.deployed
                  (NativeFaucet.mkMsg Deployment.deployer 1700000100)
                  (NativeFaucet.AdminClaimFor Deployment.user) Deployment.user
                  Deployment.paid _
                  (NativeFaucet.mkMsg Deployment.deployer 1700003700)
                  eq_refl first_payout eq_refl ltac:(discriminate)
                  ltac:(discriminate))).
  reflexivity.
Defined.

Lemma withdraw_never_overdraws_witness :
  NativeFaucet.exec Deployment.anyone Deployment.paid
    (NativeFaucet.mkMsg Deployment.deployer 1700003700)
    (NativeFaucet.Withdraw 5000000000000000000)
  = NativeFaucet.Revert "Withdraw failed".
Proof.
  apply (proj1 (withdraw_never_overdraws Deployment.anyone Deployment.paid
                  (NativeFaucet.mkMsg Deployment.deployer 1700003700)
                  5000000000000000000)); reflexivity.
Defined.

Lemma earlier_routes_answer_from_the_chain_witness :
  fst (Unguarded.claim Demo.env Demo.good (mkWorld {[ "/tmp/notes" := "{}" ]} 0 []))
  = fst (Unguarded.claim Demo.env Demo.good Demo.fresh).
Proof.
  apply (proj1 (proj2 (earlier_routes_answer_from_the_chain Demo.env)
                  Demo.good Demo.fresh)).
  cbn [ticks Demo.fresh]. reflexivity.
Defined.

Lemma aliased_route_serves_listed_networks_only_witness :
  Aliased.claim Demo.env Demo.good Demo.fresh = (Ok invalid_network, Demo.fresh).
Proof.
  apply (aliased_route_serves_listed_networks_only Demo.env Demo.good Demo.fresh).
  reflexivity.
Defined.
